(** * email_parser.py: the email-to-ticket pipeline, embedded and verified

    The development follows [src/email_parser.py] function by function.
    Python values are modelled as follows.

    - [str] and [bytes] are Rocq strings; a character stands for a code
      point in the range U+0000..U+00FF.
    - JSON values and the dictionaries built by the program are [json];
      a Python [dict] is a [gmap string json].
    - Exceptions are values of [exn]; a computation that may raise returns
      [result] (pure code) or [outcome] (code with effects, which may also
      leave through [sys.exit]).
    - The mailbox server, the remote inference service, the SMTP server and
      the operator's keyboard are scripted in a [World]; every call made to
      them is appended to the world's [trace].
    - The functions of the libraries the program calls ([email], [bs4],
      [json]) are the fields of the class [Library].

    Not recorded in the trace: the log file, [time.sleep], and the
    diagnostic lines the two service clients print on the way (lines
    134-138 and 194-200: the client address, and the status, headers and
    body of the HTTP response). *)

From Stdlib Require Import ZArith NArith Ascii String.
From stdpp Require Import gmap strings list fin_maps sorting.

#[local] Set Warnings "-register-all".

(** ** Exceptions and results *)

Record exn := Exn { exn_class : string; exn_str : string }.

Inductive result (A : Type) : Type :=
| Ok (a : A)
| Err (e : exn).
Arguments Ok {A} a.
Arguments Err {A} e.

Inductive outcome (A : Type) : Type :=
| Ret (a : A)
| Raise (e : exn)
| SysExit (code : Z).
Arguments Ret {A} a.
Arguments Raise {A} e.
Arguments SysExit {A} code.

Definition result_bind {A B} (r : result A) (f : A → result B) : result B :=
  match r with
  | Ok a => f a
  | Err e => Err e
  end.

#[global] Instance result_ret : MRet result := @Ok.
#[global] Instance result_mbind : MBind result := λ A B f r, result_bind r f.

(** The exceptions the examples meet. *)
Definition attribute_error : exn :=
  Exn "AttributeError" "object has no attribute 'get'".

Definition subject_type_error : exn :=
  Exn "TypeError" "expected string or bytes-like object".

(** ** Python strings *)

Module Py.

(** [str.isspace], which is also the class [\s] of [re] on [str]. *)
Definition isspace (c : ascii) : bool :=
  let n := N_of_ascii c in
  (((9 <=? n) && (n <=? 13)) || ((28 <=? n) && (n <=? 31))
   || (n =? 32) || (n =? 133) || (n =? 160))%N.

(** Whitespace of [bytes.split()]: space, tab, newline, return, VT, FF. *)
Definition isspace_bytes (c : ascii) : bool :=
  let n := N_of_ascii c in
  (((9 <=? n) && (n <=? 13)) || (n =? 32))%N.

Definition lower_char (c : ascii) : ascii :=
  let n := N_of_ascii c in
  if (((65 <=? n) && (n <=? 90))
      || ((192 <=? n) && (n <=? 222) && negb (n =? 215)))%N
  then ascii_of_N (n + 32) else c.

(** [s.lower()] *)
Fixpoint lower (s : string) : string :=
  match s with
  | EmptyString => EmptyString
  | String c s' => String (lower_char c) (lower s')
  end.

Fixpoint lstrip (s : string) : string :=
  match s with
  | EmptyString => EmptyString
  | String c s' => if isspace c then lstrip s' else s
  end.

Fixpoint rstrip (s : string) : string :=
  match s with
  | EmptyString => EmptyString
  | String c s' =>
    match rstrip s' with
    | EmptyString => if isspace c then EmptyString else String c EmptyString
    | r => String c r
    end
  end.

(** [s.strip()] *)
Definition strip (s : string) : string := rstrip (lstrip s).

(** [re.sub(r'\s+', ' ', s)]: every maximal run of whitespace becomes one
    space. [in_run] tells that the previous character was whitespace. *)
Fixpoint sub_ws (in_run : bool) (s : string) : string :=
  match s with
  | EmptyString => EmptyString
  | String c s' =>
    if isspace c
    then (if in_run then sub_ws true s' else String " " (sub_ws true s'))
    else String c (sub_ws false s')
  end.

(** [b.split()] on [bytes]: the maximal runs of non-whitespace. [cur] is
    the current word, reversed. *)
Fixpoint split_go (cur : option string) (s : string) : list string :=
  match s with
  | EmptyString => option_list (String.rev <$> cur)
  | String c s' =>
    if isspace_bytes c
    then option_list (String.rev <$> cur) ++ split_go None s'
    else split_go (Some (String c (default EmptyString cur))) s'
  end.

Definition split (s : string) : list string := split_go None s.

Definition newline : string := String (ascii_of_nat 10) EmptyString.

End Py.

(** ** JSON values, which are also the Python objects of the program *)

Inductive json : Type :=
| JNull
| JBool (b : bool)
| JNum (literal : string)
| JStr (s : string)
| JArr (items : list json)
| JObj (fields : gmap string json).

(** [obj[key]] with a [str] key. *)
Definition getitem_key (obj : json) (key : string) : result json :=
  match obj with
  | JObj m =>
    match m !! key with
    | Some v => Ok v
    | None => Err (Exn "KeyError" key)
    end
  | JArr _ => Err (Exn "TypeError" "list indices must be integers or slices, not str")
  | JStr _ => Err (Exn "TypeError" "string indices must be integers, not 'str'")
  | _ => Err (Exn "TypeError" "object is not subscriptable")
  end.

(** [obj[0]] *)
Definition getitem_0 (obj : json) : result json :=
  match obj with
  | JArr (x :: _) => Ok x
  | JArr [] => Err (Exn "IndexError" "list index out of range")
  | JStr (String c _) => Ok (JStr (String c EmptyString))
  | JStr EmptyString => Err (Exn "IndexError" "string index out of range")
  | JObj _ => Err (Exn "KeyError" "0")
  | _ => Err (Exn "TypeError" "object is not subscriptable")
  end.

(** [obj.get(key, default)]: only a [dict] has the method. *)
Definition dict_get (obj : json) (key : string) (dflt : json) : result json :=
  match obj with
  | JObj m => Ok (default dflt (m !! key))
  | _ => Err attribute_error
  end.

(** ** Mail messages, as [email.message.Message] presents them *)

Inductive part : Type :=
| Leaf (content_type : string) (payload : string)
| Multipart (content_type : string) (subparts : list part).

Definition get_content_type (p : part) : string :=
  match p with
  | Leaf ct _ => ct
  | Multipart ct _ => ct
  end.

Definition is_multipart (p : part) : bool :=
  match p with
  | Leaf _ _ => false
  | Multipart _ _ => true
  end.

(** [part.get_payload(decode=True)]: the bytes of a leaf, [None] for a
    container. *)
Definition get_payload_decode (p : part) : option string :=
  match p with
  | Leaf _ b => Some b
  | Multipart _ _ => None
  end.

(** [part.walk()]: the part itself, then its subparts, depth first. *)
Fixpoint walk (p : part) : list part :=
  p :: match p with
       | Leaf _ _ => []
       | Multipart _ ps =>
         (fix walk_all (qs : list part) : list part :=
            match qs with
            | [] => []
            | q :: qs' => walk q ++ walk_all qs'
            end) ps
       end.

(** [msg_subject] is [msg["Subject"]] and [msg_from] is [msg.get("From")];
    a message without a Subject header has [None] there. *)
Record message := Message {
  msg_subject : option string;
  msg_from : string;
  msg_root : part
}.

Inductive header_chunk : Type :=
| ChunkStr (s : string)
| ChunkBytes (b : string).

(** ** Library functions *)

Class Library := {
  (** [email.header.decode_header] on a header that is present *)
  decode_header : string → list (header_chunk * option string);
  (** [b.decode()]: strict UTF-8 *)
  bytes_decode : string → result string;
  (** [b.decode(errors="ignore")] *)
  bytes_decode_ignore : string → string;
  (** [BeautifulSoup(raw, "html.parser").get_text()] *)
  get_text : string → string;
  (** [json.loads] on a [str]; [None] is [json.JSONDecodeError] *)
  json_loads : string → option json;
  (** [email.utils.parseaddr] *)
  parseaddr : string → string * string
}.

(** ** Tickets, events and the world *)

(** The dictionary built at lines 251-259. Its keys are fixed, so it is a
    record; [urgency], [reasoning] and [summary] hold whatever the analysis
    payload held. *)
Record ticket := Ticket {
  email_id : string;
  subject : string;
  sender : string;
  urgency : json;
  reasoning : json;
  summary : json;
  response : string
}.

Definition set_response (t : ticket) (r : string) : ticket :=
  {| email_id := email_id t; subject := subject t; sender := sender t;
     urgency := urgency t; reasoning := reasoning t; summary := summary t;
     response := r |}.

Inductive event : Type :=
| EImapConnect (folder : string)
| EImapSearch
| EImapFetch (id : string)
| EImapStore (id : string)
| EImapLogout
| EServiceCall (system_message prompt : string) (max_tokens : Z)
| ESmtpSend (to_address reply_subject body : string) (delivered : bool)
| EPrint (line : string)
| EShowTicket (i : nat) (t : ticket)
| EInput (prompt : string) (answer : option string).

(** The replies of the outside world. [http_replies] and [smtp_replies] are
    consumed one per call. An [http_replies] entry stands for the whole
    transport sequence of one call (host lookup, [session.post] with its
    retries, [raise_for_status], [response.json()]): [Ok j] is the value of
    [response.json()], [Err e] the exception raised on the way.
    [imap_fetch_reply id] is [email.message_from_bytes(msg_data[0][1])]
    for the data fetched for [id]. *)
Record World := mkWorld {
  imap_connect_reply : result unit;
  imap_search_reply : result (string * option string);
  imap_fetch_reply : string → result message;
  imap_store_reply : string → result unit;
  http_replies : list (result json);
  smtp_replies : list (result unit);
  stdin : list string;
  trace : list event
}.

Definition log_event (e : event) (w : World) : World :=
  {| imap_connect_reply := imap_connect_reply w;
     imap_search_reply := imap_search_reply w;
     imap_fetch_reply := imap_fetch_reply w;
     imap_store_reply := imap_store_reply w;
     http_replies := http_replies w;
     smtp_replies := smtp_replies w;
     stdin := stdin w;
     trace := trace w ++ [e] |}.

Definition set_http (l : list (result json)) (w : World) : World :=
  {| imap_connect_reply := imap_connect_reply w;
     imap_search_reply := imap_search_reply w;
     imap_fetch_reply := imap_fetch_reply w;
     imap_store_reply := imap_store_reply w;
     http_replies := l;
     smtp_replies := smtp_replies w;
     stdin := stdin w;
     trace := trace w |}.

Definition set_smtp (l : list (result unit)) (w : World) : World :=
  {| imap_connect_reply := imap_connect_reply w;
     imap_search_reply := imap_search_reply w;
     imap_fetch_reply := imap_fetch_reply w;
     imap_store_reply := imap_store_reply w;
     http_replies := http_replies w;
     smtp_replies := l;
     stdin := stdin w;
     trace := trace w |}.

Definition set_stdin (l : list string) (w : World) : World :=
  {| imap_connect_reply := imap_connect_reply w;
     imap_search_reply := imap_search_reply w;
     imap_fetch_reply := imap_fetch_reply w;
     imap_store_reply := imap_store_reply w;
     http_replies := http_replies w;
     smtp_replies := smtp_replies w;
     stdin := l;
     trace := trace w |}.

(** ** The monad of effectful code *)

Definition M (A : Type) : Type := World → outcome A * World.

Definition M_bind {A B} (m : M A) (f : A → M B) : M B :=
  λ w, match m w with
       | (Ret a, w') => f a w'
       | (Raise e, w') => (Raise e, w')
       | (SysExit c, w') => (SysExit c, w')
       end.

#[global] Instance M_mret : MRet M := λ A a w, (Ret a, w).
#[global] Instance M_mbind : MBind M := λ A B f m, M_bind m f.

Notation "m1 ;; m2" := (M_bind m1 (λ _, m2))
  (at level 100, m2 at level 200, right associativity).

Definition raise {A} (e : exn) : M A := λ w, (Raise e, w).

Definition sys_exit {A} (code : Z) : M A := λ w, (SysExit code, w).

Definition lift {A} (r : result A) : M A :=
  match r with
  | Ok a => mret a
  | Err e => raise e
  end.

Definition ask {A} (f : World → A) : M A := λ w, (Ret (f w), w).

Definition emit (e : event) : M unit := λ w, (Ret tt, log_event e w).

(** [try: m except Exception as e: h e]. [SystemExit] is not an
    [Exception] and passes through. *)
Definition try_except {A} (m : M A) (h : exn → M A) : M A :=
  λ w, match m w with
       | (Raise e, w') => h e w'
       | other => other
       end.

(** [try: m except cls: h]: only exceptions of class [cls] are caught. *)
Definition try_except_class {A} (cls : string) (m : M A) (h : M A) : M A :=
  λ w, match m w with
       | (Raise e, w') =>
         if decide (exn_class e = cls) then h w' else (Raise e, w')
       | other => other
       end.

(** ** The collaborators *)

Definition print (line : string) : M unit := emit (EPrint line).

(** [input(prompt)]: the next line of the keyboard; [EOFError] at its end. *)
Definition input (prompt : string) : M string :=
  λ w, match stdin w with
       | [] => (Raise (Exn "EOFError" "EOF when reading a line"),
                log_event (EInput prompt None) w)
       | line :: rest =>
         (Ret line, log_event (EInput prompt (Some line)) (set_stdin rest w))
       end.

(** [IMAP4_SSL(IMAP_SERVER)], [mail.login], [mail.select(folder)] *)
Definition imap_connect (folder : string) : M unit :=
  emit (EImapConnect folder);; r ← ask imap_connect_reply; lift r.

(** [mail.search(None, "UNSEEN")]: the status and [messages[0]] *)
Definition imap_search : M (string * option string) :=
  emit EImapSearch;; r ← ask imap_search_reply; lift r.

(** [mail.fetch(email_id, "(RFC822)")] and [email.message_from_bytes] *)
Definition imap_fetch (id : string) : M message :=
  emit (EImapFetch id);; r ← ask (λ w, imap_fetch_reply w id); lift r.

(** [mail.store(id, "+FLAGS", "\\Seen")] *)
Definition imap_store (id : string) : M unit :=
  emit (EImapStore id);; r ← ask (λ w, imap_store_reply w id); lift r.

(** [mail.logout()] *)
Definition imap_logout : M unit := emit EImapLogout.

Definition connection_error : exn :=
  Exn "ConnectionError" "no reply from the service".

(** The request of lines 134-140 and 194-202, from the host lookup to
    [response.json()], taken as one step whose outcome is the next entry of
    [http_replies]. [EServiceCall] records that the request was begun: the
    trace does not tell a failure of the host lookup, before
    [session.post] is reached, from a failure behind it. *)
Definition session_post (system_message prompt : string) (max_tokens : Z)
  : M json :=
  λ w, let w1 := log_event (EServiceCall system_message prompt max_tokens) w in
       match http_replies w with
       | [] => (Raise connection_error, w1)
       | Ok j :: rest => (Ret j, set_http rest w1)
       | Err e :: rest => (Raise e, set_http rest w1)
       end.

(** [smtplib.SMTP], [starttls], [login], [send_message], [quit] *)
Definition smtp_deliver (to_address reply_subject body : string) : M unit :=
  λ w, match smtp_replies w with
       | [] => (Raise connection_error,
                log_event (ESmtpSend to_address reply_subject body false) w)
       | Ok _ :: rest =>
         (Ret tt, log_event (ESmtpSend to_address reply_subject body true)
                            (set_smtp rest w))
       | Err e :: rest =>
         (Raise e, log_event (ESmtpSend to_address reply_subject body false)
                             (set_smtp rest w))
       end.

(** ** The program *)

Section Program.
Context {L : Library}.

(** [connect_to_email], lines 55-66 *)
Definition connect_to_email (folder : string) : M unit :=
  try_except
    (imap_connect folder)
    (λ e, print ("Error connecting to email: " +:+ exn_str e);;
          sys_exit 1).

(** [clean_html], lines 68-74 *)
Definition clean_html (raw_html : string) : string :=
  let text := get_text raw_html in
  Py.strip (Py.sub_ws false text).

(** [part.get_payload(decode=True).decode(errors="ignore")] *)
Definition decode_payload (p : part) : result string :=
  match get_payload_decode p with
  | Some b => Ok (bytes_decode_ignore b)
  | None =>
    Err (Exn "AttributeError" "'NoneType' object has no attribute 'decode'")
  end.

(** The loop of lines 85-91 over the parts still to visit; [body] is the
    value of the variable so far. *)
Fixpoint scan_parts (parts : list part) (body : string) : result string :=
  match parts with
  | [] => Ok body
  | p :: rest =>
    let content_type := get_content_type p in
    if decide (content_type = "text/plain") then decode_payload p
    else if decide (content_type = "text/html") then
      raw ← decode_payload p; scan_parts rest (clean_html raw)
    else scan_parts rest body
  end.

(** Lines 83-97: the body of a message. *)
Definition extract_body (msg : part) : result string :=
  if is_multipart msg then scan_parts (walk msg) ""
  else
    let content_type := get_content_type msg in
    if decide (content_type = "text/plain") then decode_payload msg
    else if decide (content_type = "text/html") then
      raw ← decode_payload msg; Ok (clean_html raw)
    else Ok "".

(** Lines 78-80: [decode_header(msg["Subject"])[0][0]], decoded when it
    is [bytes]. *)
Definition extract_subject (msg : message) : result string :=
  match msg_subject msg with
  | None => Err subject_type_error
  | Some h =>
    match decode_header h with
    | [] => Err (Exn "IndexError" "list index out of range")
    | (ChunkStr s, _) :: _ => Ok s
    | (ChunkBytes b, _) :: _ => bytes_decode b
    end
  end.

(** [parse_email_content], lines 76-99 *)
Definition parse_email_content (msg : message)
  : result (string * string * string) :=
  subject ← extract_subject msg;
  let sender := msg_from msg in
  body ← extract_body (msg_root msg);
  Ok (subject, sender, body).

(** [result["choices"][0]["message"]["content"]] *)
Definition message_content (reply : json) : result json :=
  choices ← getitem_key reply "choices";
  choice ← getitem_0 choices;
  message ← getitem_key choice "message";
  getitem_key message "content".

Definition loads_type_error : exn :=
  Exn "TypeError" "the JSON object must be str, bytes or bytearray".

(** [json.loads(content)] *)
Definition loads (content : json) : M json :=
  match content with
  | JStr s =>
    match json_loads s with
    | Some v => mret v
    | None => raise (Exn "JSONDecodeError" "Expecting value")
    end
  | _ => raise loads_type_error
  end.

Definition analysis_prompt (subject body : string) : string :=
  "Analyze the following email content and perform two tasks:" +:+ Py.newline +:+
  "1. Determine the urgency level (Low, Medium, High) based on keywords, tone, and context. " +:+
  "Explain your reasoning briefly." +:+ Py.newline +:+
  "2. Summarize the email in 1-2 sentences in a ticket-like format, capturing the main point." +:+ Py.newline +:+ Py.newline +:+
  "Subject: " +:+ subject +:+ Py.newline +:+
  "Body: " +:+ body +:+ Py.newline +:+ Py.newline +:+
  "Return the response in JSON format with fields: 'urgency', 'reasoning', and 'summary'.".

(** The dictionary of lines 148-152 *)
Definition not_parsed : json :=
  JObj {[ "urgency" := JStr "Unknown";
          "reasoning" := JStr "Failed to parse API response";
          "summary" := JStr "Unable to summarize due to invalid response format" ]}.

(** The dictionary of lines 156-160 *)
Definition api_failed (e : exn) : json :=
  JObj {[ "urgency" := JStr "Unknown";
          "reasoning" := JStr ("API error: " +:+ exn_str e);
          "summary" := JStr "Unable to summarize due to API failure" ]}.

(** [analyze_email_with_xai], lines 101-160 *)
Definition analyze_email_with_xai (subject body : string) : M json :=
  try_except
    (reply ← session_post "You are an email analysis assistant."
                          (analysis_prompt subject body) 500;
     content ← lift (message_content reply);
     try_except_class "JSONDecodeError"
       (parsed_response ← loads content; mret parsed_response)
       (mret not_parsed))
    (λ e, print ("Error with xAI API: " +:+ exn_str e);;
          mret (api_failed e)).

Definition response_prompt (subject body : string) : string :=
  "Generate a polite, context-aware email response for the following email. " +:+
  "The response should address the main points, match the tone, and be concise. " +:+
  "Do not include sensitive information or commit to actions without confirmation." +:+ Py.newline +:+ Py.newline +:+
  "Subject: " +:+ subject +:+ Py.newline +:+
  "Body: " +:+ body +:+ Py.newline +:+ Py.newline +:+
  "Return the response as plain text.".

Definition strip_attribute_error : exn :=
  Exn "AttributeError" "object has no attribute 'strip'".

(** [content.strip()]: only a [str] has the method here. *)
Definition str_strip (content : json) : result string :=
  match content with
  | JStr s => Ok (Py.strip s)
  | _ => Err strip_attribute_error
  end.

Definition generic_acknowledgment : string :=
  "Thank you for your email. I will get back to you soon.".

(** [generate_response_with_xai], lines 162-209 *)
Definition generate_response_with_xai (subject body : string) : M string :=
  try_except
    (reply ← session_post "You are an email response assistant."
                          (response_prompt subject body) 300;
     content ← lift (message_content reply);
     response_text ← lift (str_strip content);
     mret response_text)
    (λ e, print ("Error generating response: " +:+ exn_str e);;
          mret generic_acknowledgment).

(** [send_email], lines 211-228 *)
Definition send_email (to_address subject body : string) : M unit :=
  try_except
    (smtp_deliver to_address ("Re: " +:+ subject) body;;
     print ("Response sent to " +:+ to_address))
    (λ e, print ("Error sending email: " +:+ exn_str e)).

(** The loop of lines 244-261; [tickets] is the list built so far. The
    values of the dictionary display are evaluated in source order. *)
Fixpoint build_tickets (email_ids : list string) (tickets : list ticket)
  : M (list ticket) :=
  match email_ids with
  | [] => mret tickets
  | email_id :: rest =>
    msg ← imap_fetch email_id;
    '(subject, sender, body) ← lift (parse_email_content msg);
    analysis ← analyze_email_with_xai subject body;
    response ← generate_response_with_xai subject body;
    id ← lift (bytes_decode email_id);
    urgency ← lift (dict_get analysis "urgency" (JStr "Unknown"));
    reasoning ← lift (dict_get analysis "reasoning"
                               (JStr "No reasoning provided"));
    summary ← lift (dict_get analysis "summary"
                             (JStr "No summary available"));
    let ticket := Ticket id subject sender urgency reasoning summary
                         response in
    build_tickets rest (tickets ++ [ticket])
  end.
End Program.

(** ** [list.sort(key=...)]

    The keys are computed first, one per element and in order; an exception
    raised by the key function leaves the sort. The elements are then
    ordered by key, ascending, by a stable sort: insertion from the right,
    where an element goes before the elements whose key is not smaller. *)

Section Sort.
Context {A : Type}.

Fixpoint insert_by_key (x : Z * A) (l : list (Z * A)) : list (Z * A) :=
  match l with
  | [] => [x]
  | y :: l' =>
    if (x.1 <=? y.1)%Z then x :: y :: l' else y :: insert_by_key x l'
  end.

Definition stable_sort (l : list (Z * A)) : list (Z * A) :=
  foldr insert_by_key [] l.

Fixpoint decorate (key : A → result Z) (l : list A) : result (list (Z * A)) :=
  match l with
  | [] => Ok []
  | x :: l' => k ← key x; kl ← decorate key l'; Ok ((k, x) :: kl)
  end.

Definition list_sort (key : A → result Z) (l : list A) : result (list A) :=
  decorated ← decorate key l; Ok ((stable_sort decorated).*2).
End Sort.

(** Line 263 *)
Definition urgency_order : gmap string Z :=
  {[ "High" := 1%Z; "Medium" := 2%Z; "Low" := 3%Z; "Unknown" := 4%Z ]}.

(** [urgency_order.get(key, dflt)]: the key is hashed first, and a [list]
    or a [dict] is not hashable; a key that is not a [str] equals no key of
    the dictionary. *)
Definition urgency_order_get (key : json) (dflt : Z) : result Z :=
  match key with
  | JStr s => Ok (default dflt (urgency_order !! s))
  | JArr _ => Err (Exn "TypeError" "unhashable type: 'list'")
  | JObj _ => Err (Exn "TypeError" "unhashable type: 'dict'")
  | _ => Ok dflt
  end.

(** The key function of line 264 *)
Definition rank (x : ticket) : result Z := urgency_order_get (urgency x) 4.

(** The three prompts of the review loop, lines 276, 281 and 285. *)
Definition edit_prompt : string := "Edit response? (y/n): ".
Definition text_prompt : string := "Enter new response:" +:+ Py.newline.
Definition send_prompt : string := "Send response? (y/n): ".

Section Review.
Context {L : Library}.

(** The loops of lines 275-279 and 284-288. [lines] is the keyboard
    input still to come when the loop is entered, which bounds the number
    of iterations: when it is empty [input] has raised [EOFError]. *)
Fixpoint ask_yn_loop (prompt : string) (lines : list string) : M string :=
  answer ← input prompt;
  let answer := Py.lower answer in
  if bool_decide (answer ∈ ["y"; "n"]) then mret answer
  else
    print "Please enter 'y' or 'n'.";;
    match lines with
    | [] => raise (Exn "EOFError" "EOF when reading a line")
    | _ :: rest => ask_yn_loop prompt rest
    end.

Definition ask_yn (prompt : string) : M string :=
  λ w, ask_yn_loop prompt (stdin w) w.

(** Lines 275-282: the edit decision; it returns the ticket as the
    operator left it. *)
Definition edit_stage (t : ticket) : M ticket :=
  edit ← ask_yn edit_prompt;
  if decide (edit = "y")
  then r ← input text_prompt;
       mret (set_response t r)
  else mret t.

(** Lines 284-296: the send decision. *)
Definition send_stage (t : ticket) : M unit :=
  choice ← ask_yn send_prompt;
  if decide (choice = "y")
  then
    let to_address := (parseaddr (sender t)).2 in
    let to_address :=
      if decide (to_address = "") then sender t else to_address in
    send_email to_address (subject t) (response t);;
    imap_store (email_id t)
  else mret tt.

(** The body of the loop of lines 266-296, for ticket number [i]. It
    returns the ticket as the operator left it. *)
Definition review_ticket (i : nat) (t : ticket) : M ticket :=
  emit (EShowTicket i t);;
  t ← edit_stage t;
  send_stage t;;
  mret t.

(** The loop of lines 266-296 *)
Fixpoint review_tickets (i : nat) (tickets : list ticket)
  : M (list ticket) :=
  match tickets with
  | [] => mret []
  | t :: rest =>
    t' ← review_ticket i t;
    rest' ← review_tickets (S i) rest;
    mret (t' :: rest')
  end.

(** [not messages[0]] *)
Definition falsy (b : option string) : bool :=
  match b with
  | None => true
  | Some s => bool_decide (s = "")
  end.

(** [main], lines 230-299, after [setup_credentials] *)
Definition main (folder : string) : M unit :=
  connect_to_email folder;;
  '(status, messages0) ← imap_search;
  if negb (bool_decide (status = "OK")) || falsy messages0 then
    print "No unread emails found.";;
    imap_logout
  else
    let email_ids := Py.split (default "" messages0) in
    tickets ← build_tickets email_ids [];
    tickets ← lift (list_sort rank tickets);
    review_tickets 1 tickets;;
    imap_logout.
End Review.

(** ** A library for examples

    It agrees with the Python libraries on the inputs of the examples
    below: headers without encoded words, ASCII bytes, markup without
    entities or comments, the four JSON texts listed, and addresses that
    are bare or of the form [Name <address>]. *)

Definition is_ascii (c : ascii) : bool := (N_of_ascii c <? 128)%N.

Fixpoint string_forallb (f : ascii → bool) (s : string) : bool :=
  match s with
  | EmptyString => true
  | String c s' => f c && string_forallb f s'
  end.

Fixpoint string_filter (f : ascii → bool) (s : string) : string :=
  match s with
  | EmptyString => EmptyString
  | String c s' => if f c then String c (string_filter f s') else string_filter f s'
  end.

(** Drops what stands between [<] and [>]. *)
Fixpoint drop_tags (in_tag : bool) (s : string) : string :=
  match s with
  | EmptyString => EmptyString
  | String c s' =>
    if in_tag then drop_tags (negb (bool_decide (c = ">"%char))) s'
    else if bool_decide (c = "<"%char) then drop_tags true s'
    else String c (drop_tags false s')
  end.

(** The text before the first [<], and the text between it and the next
    [>]. *)
Fixpoint before_lt (s : string) : string :=
  match s with
  | EmptyString => EmptyString
  | String c s' =>
    if bool_decide (c = "<"%char) then EmptyString
    else String c (before_lt s')
  end.

Fixpoint until_gt (s : string) : string :=
  match s with
  | EmptyString => EmptyString
  | String c s' =>
    if bool_decide (c = ">"%char) then EmptyString
    else String c (until_gt s')
  end.

Fixpoint after_lt (s : string) : option string :=
  match s with
  | EmptyString => None
  | String c s' =>
    if bool_decide (c = "<"%char) then Some (until_gt s') else after_lt s'
  end.

Definition example_parseaddr (s : string) : string * string :=
  match after_lt s with
  | Some address => (Py.strip (before_lt s), address)
  | None => ("", s)
  end.

Definition example_loads (s : string) : option json :=
  if decide (s = "{}") then Some (JObj ∅)
  else if decide (s = "[]") then Some (JArr [])
  else if decide (s = "null") then Some JNull
  else if decide (s = "7") then Some (JNum "7")
  else None.

#[local] Instance example_library : Library := {|
  decode_header := λ h, [(ChunkStr h, None)];
  bytes_decode := λ b,
    if string_forallb is_ascii b then Ok b
    else Err (Exn "UnicodeDecodeError" "invalid start byte");
  bytes_decode_ignore := string_filter is_ascii;
  get_text := drop_tags false;
  json_loads := example_loads;
  parseaddr := example_parseaddr
|}.

(** ** Definitions used in the statements *)

Definition known_urgency : list string := ["High"; "Medium"; "Low"; "Unknown"].

(** A container is not a text part. *)
Definition part_ok (p : part) : Prop :=
  is_multipart p = true →
  get_content_type p ≠ "text/plain" ∧ get_content_type p ≠ "text/html".

(** What [email]'s parser builds: only [multipart/*] and [message/*] parts
    have subparts, so no container is a text part. *)
Definition well_formed (msg : part) : Prop := Forall part_ok (walk msg).

(** Every whitespace character of [s] is a space, and no two stand side by
    side. *)
Fixpoint single_spaced (s : string) : bool :=
  match s with
  | EmptyString => true
  | String c s' =>
    (if Py.isspace c
     then bool_decide (c = " "%char) &&
          match s' with
          | EmptyString => true
          | String c' _ => negb (Py.isspace c')
          end
     else true) && single_spaced s'
  end.

(** A dictionary with the three fields of an analysis. *)
Definition populated (j : json) : Prop :=
  ∃ m u r s, j = JObj m ∧ m !! "urgency" = Some u ∧
             m !! "reasoning" = Some r ∧ m !! "summary" = Some s.

(** The result the specification gives for a payload that cannot be
    decoded, in its words. *)
Definition spec_not_parseable : json :=
  JObj {[ "urgency" := JStr "Unknown";
          "reasoning" := JStr "response was not parseable";
          "summary" := JStr "unable to summarize" ]}.

(** The reply of the service whose message content is [content]. *)
Definition reply_with (content : json) : json :=
  JObj {[ "choices" :=
            JArr [JObj {[ "message" := JObj {[ "content" := content ]} ]}] ]}.

(** [silent P m]: whatever [m] does, it only appends events to the trace,
    and they all satisfy [P]. *)
Definition silent (P : event → Prop) {A} (m : M A) : Prop :=
  ∀ w, ∃ evs, trace (m w).2 = trace w ++ evs ∧ Forall P evs.

(** A reply of the service that is a failure. *)
Definition is_err {A} (r : result A) : Prop := ∃ e, r = Err e.

(** A ticket whose analysis and draft both fell back. *)
Definition degraded (t : ticket) : Prop :=
  urgency t = JStr "Unknown" ∧
  (∃ s, reasoning t = JStr s ∧ s ≠ "") ∧
  summary t = JStr "Unable to summarize due to API failure" ∧
  response t = "Thank you for your email. I will get back to you soon.".

(** Sample messages and worlds for the examples. *)
Definition sample_message : message :=
  Message (Some "Server down") "Ann <ann@example.org>"
          (Leaf "text/plain" "The server is down").

Definition message_without_subject : message :=
  Message None "Bob <bob@example.org>"
          (Leaf "text/plain" "Please call me back").

(** A connected mailbox whose unread messages are [ids], with the given
    messages, service replies, delivery replies and keyboard input. *)
Definition sample_world (ids : string) (fetch : string → result message)
           (http : list (result json)) (smtp : list (result unit))
           (keys : list string) : World :=
  mkWorld (Ok tt) (Ok ("OK", Some ids)) fetch (λ _, Ok tt) http smtp keys [].

(** In the events [evs] the operator answered [answer] to [prompt]: a line
    was read at that prompt which, in lower case, is [answer]. *)
Definition chose (prompt answer : string) (evs : list event) : Prop :=
  ∃ line, EInput prompt (Some line) ∈ evs ∧ Py.lower line = answer.

(** An event of a yes/no question with prompt [prompt]. *)
Definition prompt_event (prompt : string) (e : event) : Prop :=
  (∃ a, e = EInput prompt a) ∨ (∃ l, e = EPrint l).

(** [e] is not a line read at [prompt]. *)
Definition no_input_at (prompt : string) (e : event) : Prop :=
  ∀ line, e ≠ EInput prompt (Some line).

(** The events of the edit decision and of the send decision. *)
Definition edit_event (e : event) : Prop :=
  prompt_event edit_prompt e ∨ ∃ a, e = EInput text_prompt a.

Definition send_event (t : ticket) (e : event) : Prop :=
  prompt_event send_prompt e ∨ (∃ a b c d, e = ESmtpSend a b c d) ∨
  e = EImapStore (email_id t).

Definition sample_ticket (id urgency : string) : ticket :=
  Ticket id "Server down" "Ann <ann@example.org>" (JStr urgency)
         (JStr "Outage reported") (JStr "The server is down") "On it.".

Definition sample_tickets : list ticket :=
  [sample_ticket "1" "Low"; sample_ticket "2" "Critical";
   sample_ticket "3" "High"; sample_ticket "4" "Unknown";
   sample_ticket "5" "High"].

Definition sample_multipart : part :=
  Multipart "multipart/alternative"
            [Leaf "text/html" "<p>Hi   there</p>";
             Leaf "text/plain" "Hi there"].

(** A message with two HTML parts and no plain text. *)
Definition sample_html_only : part :=
  Multipart "multipart/alternative"
            [Leaf "text/html" "<p>An older   draft</p>";
             Leaf "text/html" "<div>  Hi   <b>there</b>,  Ann  </div>"].

(** The mailbox and delivery events of a trace, and the tickets shown. *)
Fixpoint mail_events (evs : list event) : list event :=
  match evs with
  | [] => []
  | e :: evs' =>
    match e with
    | EImapConnect _ | EImapSearch | EImapFetch _ | EImapStore _
    | EImapLogout | ESmtpSend _ _ _ _ => e :: mail_events evs'
    | _ => mail_events evs'
    end
  end.

Fixpoint shown_tickets (evs : list event) : list ticket :=
  match evs with
  | [] => []
  | EShowTicket _ t :: evs' => t :: shown_tickets evs'
  | _ :: evs' => shown_tickets evs'
  end.

(** The words of a text are its maximal runs of characters that are not
    whitespace. [cut s] is the word [s] begins with, empty when [s] is
    empty or begins with whitespace, and the words behind it. *)
Fixpoint cut (s : string) : string * list string :=
  match s with
  | EmptyString => (EmptyString, [])
  | String c s' =>
    let '(w, ws) := cut s' in
    if Py.isspace c
    then (EmptyString, match w with EmptyString => ws | _ => w :: ws end)
    else (String c w, ws)
  end.

Definition words (s : string) : list string :=
  let '(w, ws) := cut s in
  match w with EmptyString => ws | _ => w :: ws end.

(** The words [ws] with one space between neighbours. *)
Fixpoint unwords (ws : list string) : string :=
  match ws with
  | [] => EmptyString
  | w :: ws' =>
    match ws' with
    | [] => w
    | _ => w +:+ " " +:+ unwords ws'
    end
  end.

(** A text with its runs of whitespace collapsed to single spaces, in the
    words of the specification: the words of the text, in order, one space
    where a run of whitespace stood between two of them. The runs at the
    two ends of the text separate no words and leave nothing. *)
Definition collapse_whitespace (text : string) : string :=
  unwords (words text).

Section BodyPolicy.
Context {L : Library}.

Definition decoded (p : part) : string :=
  bytes_decode_ignore (default "" (get_payload_decode p)).

(** An HTML body made plain, in the words of the specification: the markup
    stripped, the runs of whitespace collapsed to single spaces. *)
Definition html_to_plain (raw : string) : string :=
  collapse_whitespace (get_text raw).

Definition is_plain (p : part) : Prop := get_content_type p = "text/plain".
Definition is_html (p : part) : Prop := get_content_type p = "text/html".

(** The body selection policy, in the words of the specification: in a
    multi-part message the first [text/plain] part in declaration order;
    if there is none, the last [text/html] part, made plain; in a
    single-part message the body if it is [text/plain], the body made
    plain if it is [text/html]; otherwise the empty body. *)
Definition spec_body (msg : part) : string :=
  if is_multipart msg then
    match head (filter is_plain (walk msg)) with
    | Some p => decoded p
    | None =>
      match last (filter is_html (walk msg)) with
      | Some p => html_to_plain (decoded p)
      | None => ""
      end
    end
  else if decide (is_plain msg) then decoded msg
  else if decide (is_html msg) then html_to_plain (decoded msg)
  else "".
End BodyPolicy.

Definition key_le {A} (x y : Z * A) : Prop := (x.1 ≤ y.1)%Z.

Section Replies.
Context {L : Library}.

(** What [analyze_email_with_xai] returns, by the reply of the service. *)
Definition analysis_of (replies : list (result json)) : json :=
  match replies with
  | [] => api_failed connection_error
  | Err e :: _ => api_failed e
  | Ok reply :: _ =>
    match message_content reply with
    | Err e => api_failed e
    | Ok (JStr s) =>
      match json_loads s with
      | Some v => v
      | None => not_parsed
      end
    | Ok _ => api_failed loads_type_error
    end
  end.

(** What [generate_response_with_xai] returns, by the reply. *)
Definition draft_of (replies : list (result json)) : string :=
  match replies with
  | Ok reply :: _ =>
    match message_content reply with
    | Ok (JStr s) => Py.strip s
    | _ => generic_acknowledgment
    end
  | _ => generic_acknowledgment
  end.
End Replies.

(** The events of a call of the service, and those of the review loop. *)
Definition service_events (P : event → Prop) : Prop :=
  (∀ s p n, P (EServiceCall s p n)) ∧ (∀ l, P (EPrint l)).

Definition review_events (P : event → Prop) : Prop :=
  (∀ i t, P (EShowTicket i t)) ∧ (∀ p a, P (EInput p a)) ∧
  (∀ l, P (EPrint l)) ∧ (∀ a b c d, P (ESmtpSend a b c d)) ∧
  (∀ id, P (EImapStore id)).

Definition not_logout (e : event) : Prop := e ≠ EImapLogout.

(** [m] logs out as its last event when it returns, and not at all when
    it leaves by an exception or by [sys.exit]. *)
Definition logout_last {A} (m : M A) : Prop :=
  ∀ w, ∃ evs, trace (m w).2 = trace w ++ evs ∧
    match (m w).1 with
    | Ret _ => ∃ evs', evs = evs' ++ [EImapLogout] ∧ Forall not_logout evs'
    | _ => Forall not_logout evs
    end.

(** ** Credentials *)

(** The three module globals of lines 33-35, as [os.getenv] leaves them:
    [None] for a variable that is not set. *)
Record credentials := Credentials {
  EMAIL_ADDRESS : option string;
  EMAIL_PASSWORD : option string;
  XAI_API_KEY : option string
}.

Definition address_prompt : string := "Enter your email address: ".
Definition password_prompt : string :=
  "Enter your email password (use App Password for Gmail): ".
Definition key_prompt : string := "Enter your xAI API key: ".

(** [setup_credentials], lines 45-53; it returns the globals as it leaves
    them. [getpass.getpass] reads a line from the operator as [input]
    does. *)
Definition setup_credentials (c : credentials) : M credentials :=
  address ← (if falsy (EMAIL_ADDRESS c)
             then line ← input address_prompt; mret (Some line)
             else mret (EMAIL_ADDRESS c));
  password ← (if falsy (EMAIL_PASSWORD c)
              then line ← input password_prompt; mret (Some line)
              else mret (EMAIL_PASSWORD c));
  key ← (if falsy (XAI_API_KEY c)
         then line ← input key_prompt; mret (Some line)
         else mret (XAI_API_KEY c));
  mret (Credentials address password key).

(** The prompts [setup_credentials] has to issue for [c], in order. *)
Definition missing_prompts (c : credentials) : list string :=
  (if falsy (EMAIL_ADDRESS c) then [address_prompt] else []) ++
  (if falsy (EMAIL_PASSWORD c) then [password_prompt] else []) ++
  (if falsy (XAI_API_KEY c) then [key_prompt] else []).

(** [x] when it is set and not empty, otherwise the next line of [lines];
    the lines left over come back with it. *)
Definition keep_or_read (x : option string) (lines : list string)
  : option string * list string :=
  if falsy x then (head lines, tail lines) else (x, lines).

(** [c] with its missing credentials read from [lines], in order. *)
Definition completed (c : credentials) (lines : list string) : credentials :=
  let '(address, lines) := keep_or_read (EMAIL_ADDRESS c) lines in
  let '(password, lines) := keep_or_read (EMAIL_PASSWORD c) lines in
  let '(key, _) := keep_or_read (XAI_API_KEY c) lines in
  Credentials address password key.

(** ** The ends of a text *)

Definition first_char (s : string) : option ascii :=
  match s with
  | EmptyString => None
  | String c _ => Some c
  end.

Fixpoint last_char (s : string) : option ascii :=
  match s with
  | EmptyString => None
  | String c EmptyString => Some c
  | String _ s' => last_char s'
  end.

(** [c], if there is one, is not whitespace. *)
Definition not_space (c : option ascii) : Prop :=
  match c with
  | Some c => Py.isspace c = false
  | None => True
  end.

Definition non_space (c : ascii) : bool := negb (Py.isspace c).

(** ** What the clients report *)

Section Reports.
Context {L : Library}.

(** The exception the handler of [analyze_email_with_xai] catches, if
    any, by the reply of the service. *)
Definition analysis_failure (replies : list (result json)) : option exn :=
  match replies with
  | [] => Some connection_error
  | Err e :: _ => Some e
  | Ok reply :: _ =>
    match message_content reply with
    | Err e => Some e
    | Ok (JStr _) => None
    | Ok _ => Some loads_type_error
    end
  end.

(** The same for [generate_response_with_xai]. *)
Definition draft_failure (replies : list (result json)) : option exn :=
  match replies with
  | [] => Some connection_error
  | Err e :: _ => Some e
  | Ok reply :: _ =>
    match message_content reply with
    | Err e => Some e
    | Ok (JStr _) => None
    | Ok _ => Some strip_attribute_error
    end
  end.

(** The line the handler prints for a failure. *)
Definition error_line (prefix : string) (failure : option exn) : list event :=
  match failure with
  | Some e => [EPrint (prefix +:+ exn_str e)]
  | None => []
  end.

(** The subject [parse_email_content] draws from the first chunk of the
    decoded header. *)
Definition chunk_text (chunk : header_chunk) : result string :=
  match chunk with
  | ChunkStr s => Ok s
  | ChunkBytes b => bytes_decode b
  end.
End Reports.

(** [w'] differs from [w] at most in the trace and in the replies of the
    service still to come. *)
Definition same_but_service (w w' : World) : Prop :=
  imap_connect_reply w' = imap_connect_reply w ∧
  imap_search_reply w' = imap_search_reply w ∧
  imap_fetch_reply w' = imap_fetch_reply w ∧
  imap_store_reply w' = imap_store_reply w ∧
  smtp_replies w' = smtp_replies w ∧
  stdin w' = stdin w.

(** ** What a ticket is built from *)

Section TicketOrigin.
Context {L : Library}.

(** Ticket [t] was built for the unread message [id] of a mailbox that
    answers fetches by [fetch]: its identifier is the decoded [id], its
    subject and sender are those parsed from the message fetched. *)
Definition built_for (fetch : string → result message) (id : string)
           (t : ticket) : Prop :=
  ∃ msg body,
    fetch id = Ok msg ∧
    parse_email_content msg = Ok (subject t, sender t, body) ∧
    bytes_decode id = Ok (email_id t).

(** The ticket of lines 251-259 for an analysis that is the object [m]. *)
Definition ticket_of (id subject sender : string) (m : gmap string json)
           (response : string) : ticket :=
  Ticket id subject sender
         (default (JStr "Unknown") (m !! "urgency"))
         (default (JStr "No reasoning provided") (m !! "reasoning"))
         (default (JStr "No summary available") (m !! "summary"))
         response.
End TicketOrigin.

(** ** The answers at a prompt and the delivery *)

Definition please : string := "Please enter 'y' or 'n'.".

(** The events of the lines [junk] read at [prompt] and refused. *)
Fixpoint reprompts (prompt : string) (junk : list string) : list event :=
  match junk with
  | [] => []
  | line :: junk' =>
    EInput prompt (Some line) :: EPrint please :: reprompts prompt junk'
  end.

(** A line that is neither yes nor no. *)
Definition refused (line : string) : Prop := Py.lower line ∉ ["y"; "n"].

(** Whether the next delivery succeeds, and the line [send_email] prints
    about it. *)
Definition delivered (replies : list (result unit)) : bool :=
  match replies with
  | Ok _ :: _ => true
  | _ => false
  end.

Definition delivery_report (to_address : string)
           (replies : list (result unit)) : string :=
  match replies with
  | Ok _ :: _ => "Response sent to " +:+ to_address
  | Err e :: _ => "Error sending email: " +:+ exn_str e
  | [] => "Error sending email: " +:+ exn_str connection_error
  end.

(** [w'] differs from [w] at most in the trace and in the replies of the
    mail server still to come. *)
Definition same_but_smtp (w w' : World) : Prop :=
  imap_connect_reply w' = imap_connect_reply w ∧
  imap_search_reply w' = imap_search_reply w ∧
  imap_fetch_reply w' = imap_fetch_reply w ∧
  imap_store_reply w' = imap_store_reply w ∧
  http_replies w' = http_replies w ∧
  stdin w' = stdin w.

Section Recipient.
Context {L : Library}.

(** Lines 291-293: the address part of the sender, or the sender as it
    stands when there is none. *)
Definition recipient (t : ticket) : string :=
  let to_address := (parseaddr (sender t)).2 in
  if decide (to_address = "") then sender t else to_address.
End Recipient.

(** ** Kinds of events and values *)

(** A value that cannot be the key of a dictionary. *)
Definition unhashable (j : json) : Prop :=
  match j with
  | JArr _ | JObj _ => True
  | _ => False
  end.

(** The events of the first phase of [main], up to the sort, and those of
    the second, from the first ticket shown to the logout. *)
Definition building_event (e : event) : Prop :=
  match e with
  | EImapConnect _ | EImapSearch | EImapFetch _ | EServiceCall _ _ _
  | EPrint _ => True
  | _ => False
  end.

Definition reviewing_event (e : event) : Prop :=
  match e with
  | EShowTicket _ _ | EInput _ _ | EPrint _ | ESmtpSend _ _ _ _
  | EImapStore _ | EImapLogout => True
  | _ => False
  end.

(** [m] appends events of [P], and behind them events of [Q]. *)
Definition phased (P Q : event → Prop) {A} (m : M A) : Prop :=
  ∀ w, ∃ evs1 evs2,
    trace (m w).2 = trace w ++ evs1 ++ evs2 ∧ Forall P evs1 ∧ Forall Q evs2.

(** A question of the review loop: an event of the edit decision or of the
    send question. *)
Definition question_event (e : event) : Prop :=
  edit_event e ∨ prompt_event send_prompt e.

(** [t'] is [t] but for its response. *)
Definition same_but_response (t t' : ticket) : Prop :=
  ∃ r, t' = set_response t r.

(** ** An operator who declines *)

(** The keyboard input of an operator who answers no to both questions
    for each of [n] tickets. *)
Fixpoint decline_all (n : nat) : list string :=
  match n with
  | 0 => []
  | S n' => "n" :: "n" :: decline_all n'
  end.

(** The unread message [id] of [w] can be fetched and parsed. *)
Definition readable {L : Library} (w : World) (id : string) : Prop :=
  ∃ msg c s, imap_fetch_reply w id = Ok msg ∧
             parse_email_content msg = Ok c ∧ bytes_decode id = Ok s.

(** Credentials of which the password is not set and the key is empty. *)
Definition sample_credentials : credentials :=
  Credentials (Some "me@example.org") None (Some "").

Definition keyboard (keys : list string) : World :=
  sample_world "" (λ _, Ok sample_message) [] [] keys.

Definition attachments_only : part :=
  Multipart "multipart/mixed"
            [Leaf "image/png" "PNG"; Leaf "application/pdf" "PDF"].

(** ** The last rank *)

(** The urgencies the rank mapping puts ahead of Unknown. *)
Definition ahead_of_unknown (t : ticket) : bool :=
  match urgency t with
  | JStr s => bool_decide (s ∈ ["High"; "Medium"; "Low"])
  | _ => false
  end.

Definition set_urgency (t : ticket) (u : json) : ticket :=
  {| email_id := email_id t; subject := subject t; sender := sender t;
     urgency := u; reasoning := reasoning t; summary := summary t;
     response := response t |}.

(** A batch with an unexpected urgency text in front, and with urgencies
    that are no texts. *)
Definition mixed_tickets : list ticket :=
  [sample_ticket "1" "Critical";
   set_urgency (sample_ticket "2" "") JNull;
   sample_ticket "3" "High";
   set_urgency (sample_ticket "4" "") (JNum "3");
   sample_ticket "5" "Low";
   sample_ticket "6" "Unknown";
   sample_ticket "7" "high"].

(** ** The read flag on the server *)

(** The messages that carry the flag [\Seen] on the server after the
    events [evs] of a session. Line 60 opens the folder by
    [mail.select(folder)], that is read-write; there an IMAP server sets
    the flag on a message whose text is fetched as [RFC822], which line 245
    asks for, as it does at the [STORE] of line 295 (RFC 3501, 6.4.5 and
    6.4.6). *)
Fixpoint seen_on_server (evs : list event) : list string :=
  match evs with
  | [] => []
  | EImapFetch id :: evs' => id :: seen_on_server evs'
  | EImapStore id :: evs' => id :: seen_on_server evs'
  | _ :: evs' => seen_on_server evs'
  end.

(** ** Batches whose analyses are dictionaries *)

Section Objects.
Context {L : Library}.


End Objects.

(** ** The lines that report a failure *)

(** [e] prints a line that begins with [prefix]. *)
Definition is_report (prefix : string) (e : event) : bool :=
  match e with
  | EPrint line => String.prefix prefix line
  | _ => false
  end.

(** The events of [evs] that print a line beginning with [prefix]. The
    diagnostic lines of the clients, which the trace leaves out, begin
    with other words: [Client IP], [Response Status], [Response Headers]
    and [Response Body]. *)
Definition reports (prefix : string) (evs : list event) : list event :=
  filter (λ e, Is_true (is_report prefix e)) evs.

(** * Properties *)

(** ** The stable sort *)

Section SortFacts.
Context {A : Type}.
Implicit Types (x : Z * A) (l d : list (Z * A)).

Lemma insert_by_key_perm x l : insert_by_key x l ≡ₚ x :: l.
Proof.
  induction l as [|y l IH]; simpl; [done|].
  destruct (x.1 <=? y.1)%Z; [done|].
  rewrite IH. apply Permutation_swap.
Qed.

Lemma stable_sort_perm l : stable_sort l ≡ₚ l.
Proof.
  induction l as [|x l IH]; simpl; [done|].
  rewrite insert_by_key_perm. by f_equiv.
Qed.

Lemma insert_by_key_sorted x l :
  StronglySorted key_le l → StronglySorted key_le (insert_by_key x l).
Proof.
  induction 1 as [|y l Hl IH Hy]; simpl.
  - repeat constructor.
  - destruct (Z.leb_spec x.1 y.1) as [Hle|Hlt].
    + constructor; [by constructor|].
      constructor; [done|].
      eapply Forall_impl; [exact Hy|]. unfold key_le. intros; lia.
    + constructor; [done|].
      rewrite insert_by_key_perm. constructor; [|done].
      unfold key_le. lia.
Qed.

Lemma stable_sort_sorted l : StronglySorted key_le (stable_sort l).
Proof.
  induction l; simpl; [constructor|]. by apply insert_by_key_sorted.
Qed.

(** Inserting [x] moves it only past elements of a different key. *)
Lemma insert_by_key_filter (P : Z * A → Prop) `{∀ y, Decision (P y)} x l :
  (∀ y, y ∈ l → P x → P y → x.1 = y.1) →
  filter P (insert_by_key x l) = filter P (x :: l).
Proof.
  induction l as [|y l IH]; intros Hhom; simpl; [done|].
  destruct (Z.leb_spec x.1 y.1) as [Hle|Hlt]; [done|].
  rewrite (filter_cons _ y), IH
    by (intros z Hz; apply Hhom; by apply list_elem_of_further).
  rewrite !(filter_cons _ x), (filter_cons _ y).
  destruct (decide (P x)) as [Hx|]; [|done].
  destruct (decide (P y)) as [Hy|]; [|done].
  specialize (Hhom y (list_elem_of_here _ _) Hx Hy). lia.
Qed.

Lemma stable_sort_filter (P : Z * A → Prop) `{∀ y, Decision (P y)} l :
  (∀ x y, x ∈ l → y ∈ l → P x → P y → x.1 = y.1) →
  filter P (stable_sort l) = filter P l.
Proof.
  induction l as [|x l IH]; intros Hhom; simpl; [done|].
  rewrite insert_by_key_filter.
  - rewrite !(filter_cons _ x), IH; [done|].
    intros a b Ha Hb. apply Hhom; by apply list_elem_of_further.
  - intros y Hy. apply Hhom; [apply list_elem_of_here|].
    apply list_elem_of_further. by rewrite <-(stable_sort_perm l).
Qed.

(** A stable sort has one possible result: two lists ascending in the
    keys that hold the same elements of each key, in the same order, are
    equal. Hence any stable sort, CPython's included, returns what
    [stable_sort] returns. *)
Lemma stable_sorted_unique l d :
  StronglySorted key_le l → StronglySorted key_le d →
  (∀ k : Z, filter (λ x, x.1 = k) l = filter (λ x, x.1 = k) d) →
  l = d.
Proof.
  intros Hl. revert d. induction Hl as [|x l Hl IH Hx]; intros d Hd Hgroups.
  - destruct d as [|y d]; [done|].
    specialize (Hgroups y.1). rewrite filter_cons_True in Hgroups by done.
    discriminate Hgroups.
  - destruct d as [|y d].
    { specialize (Hgroups x.1). rewrite filter_cons_True in Hgroups by done.
      discriminate Hgroups. }
    apply StronglySorted_cons in Hd as [Hy Hd].
    assert (Hxy : x.1 = y.1).
    { destruct (decide (x.1 = y.1)) as [|Hne]; [done|exfalso].
      assert (Hxin : x ∈ y :: d).
      { apply (list_elem_of_filter (λ z, z.1 = x.1) _ x).
        rewrite <-Hgroups, filter_cons_True by done. apply list_elem_of_here. }
      assert (Hyin : y ∈ x :: l).
      { apply (list_elem_of_filter (λ z, z.1 = y.1) _ y).
        rewrite Hgroups, filter_cons_True by done. apply list_elem_of_here. }
      apply elem_of_cons in Hxin as [->|Hxin]; [done|].
      apply elem_of_cons in Hyin as [->|Hyin]; [done|].
      pose proof (proj1 (Forall_forall _ _) Hy _ Hxin) as H1.
      pose proof (proj1 (Forall_forall _ _) Hx _ Hyin) as H2.
      unfold key_le in *. lia. }
    pose proof (Hgroups x.1) as Hhead.
    rewrite filter_cons_True in Hhead by done.
    rewrite (filter_cons_True _ y) in Hhead by done.
    inversion Hhead; subst y. f_equal. apply IH; [done|].
    intros k. specialize (Hgroups k). rewrite !filter_cons in Hgroups.
    destruct (decide (x.1 = k)); [by inversion Hgroups|done].
Qed.

Lemma stable_sort_unique l out :
  StronglySorted key_le out →
  (∀ k : Z, filter (λ x, x.1 = k) out = filter (λ x, x.1 = k) l) →
  out = stable_sort l.
Proof.
  intros Hs Hgroups. apply stable_sorted_unique; [done|..].
  - apply stable_sort_sorted.
  - intros k. rewrite Hgroups. symmetry. apply stable_sort_filter.
    intros x y _ _ Hx Hy. congruence.
Qed.

Lemma filter_snd (P : A → Prop) `{∀ a, Decision (P a)} d :
  filter P d.*2 = (filter (λ kx, P kx.2) d).*2.
Proof.
  induction d as [|kx d IH]; [done|].
  rewrite fmap_cons, !filter_cons, IH. by destruct (decide (P kx.2)).
Qed.

Variable key : A → result Z.

Lemma decorate_spec (l : list A) (d : list (Z * A)) :
  decorate key l = Ok d →
  d.*2 = l ∧ Forall (λ kx, key kx.2 = Ok kx.1) d.
Proof.
  revert d. induction l as [|a l IH]; simpl; intros d Hd.
  - by inversion Hd.
  - unfold mbind, result_mbind in Hd. simpl in Hd.
    destruct (key a) as [k|] eqn:Hk; simpl in Hd; [|done].
    destruct (decorate key l) as [d'|] eqn:Hd'; simpl in Hd; [|done].
    inversion Hd; subst. destruct (IH d' eq_refl) as [E ?].
    split; [by rewrite fmap_cons, E|]. by constructor.
Qed.

Lemma decorate_total (l : list A) :
  Forall (λ a, ∃ k, key a = Ok k) l → ∃ d, decorate key l = Ok d.
Proof.
  induction 1 as [|a l [k Hk] _ [d Hd]]; simpl; [by eexists|].
  unfold mbind, result_mbind. rewrite Hk; simpl. rewrite Hd; simpl.
  by eexists.
Qed.

(** What [list.sort(key=key)] returns when no key raises: a permutation
    of the list, ascending in the keys, in which the elements of any
    group of equal key stand in their original order. *)
Lemma list_sort_spec (l : list A) :
  Forall (λ a, ∃ k, key a = Ok k) l →
  ∃ out, list_sort key l = Ok out ∧
    out ≡ₚ l ∧
    (∀ pre a post, out = pre ++ a :: post →
       ∃ ka, key a = Ok ka ∧
             Forall (λ b, ∃ kb, key b = Ok kb ∧ (ka ≤ kb)%Z) post) ∧
    (∀ (P : A → Prop) (HP : ∀ a, Decision (P a)),
       (∀ a b, P a → P b → key a = key b) →
       filter P out = filter P l).
Proof.
  intros Hl. destruct (decorate_total l Hl) as [d Hd].
  destruct (decorate_spec l d Hd) as [Hd2 Hkeys].
  exists ((stable_sort d).*2). unfold list_sort. rewrite Hd. simpl.
  split; [done|]. split; [|split].
  - by rewrite stable_sort_perm, Hd2.
  - intros pre a post Heq.
    apply fmap_app_inv in Heq as (dpre & drest & -> & Hrest & Hsort).
    symmetry in Hrest.
    apply fmap_cons_inv in Hrest as ([ka a'] & dpost & Ha & -> & ->).
    simpl in Ha; subst a'.
    pose proof (stable_sort_sorted d) as Hs. rewrite Hsort in Hs.
    apply StronglySorted_app in Hs as (_ & _ & Hs).
    apply StronglySorted_cons in Hs as [Hle _].
    assert (Hin : Forall (λ kx, key kx.2 = Ok kx.1) (dpre ++ (ka, a) :: dpost)).
    { rewrite <-Hsort. by rewrite stable_sort_perm. }
    apply Forall_app in Hin as [_ Hin].
    apply Forall_cons in Hin as [Hka Hpost]. simpl in Hka.
    exists ka. split; [done|].
    apply Forall_fmap, Forall_forall. intros [kb b] Hb. simpl.
    exists kb. split.
    + by apply (proj1 (Forall_forall _ _) Hpost (kb, b)).
    + by apply (proj1 (Forall_forall _ _) Hle (kb, b)).
  - intros P HP Hhom. rewrite <-Hd2.
    rewrite !filter_snd. f_equal.
    apply stable_sort_filter.
    intros [k1 a1] [k2 a2] H1 H2 Hp1 Hp2. simpl in *.
    pose proof (proj1 (Forall_forall _ _) Hkeys _ H1) as E1.
    pose proof (proj1 (Forall_forall _ _) Hkeys _ H2) as E2.
    simpl in *. specialize (Hhom a1 a2 Hp1 Hp2). congruence.
Qed.

(** When a key raises, so does the sort. *)
Lemma list_sort_raises (l : list A) (a : A) (e : exn) :
  a ∈ l → key a = Err e → ∃ e', list_sort key l = Err e'.
Proof.
  intros Hin Hk. unfold list_sort.
  assert (∃ e', decorate key l = Err e') as [e' ->]; [|by eexists].
  induction Hin as [a l|a b l Hin IH]; simpl.
  - unfold mbind, result_mbind. rewrite Hk. by eexists.
  - unfold mbind, result_mbind. destruct (key b); simpl; [|by eexists].
    destruct (IH Hk) as [e' ->]. by eexists.
Qed.
End SortFacts.

(** ** The rank of a ticket *)

Lemma urgency_order_lookup (s : string) :
  urgency_order !! s =
    if decide (s = "High") then Some 1%Z
    else if decide (s = "Medium") then Some 2%Z
    else if decide (s = "Low") then Some 3%Z
    else if decide (s = "Unknown") then Some 4%Z
    else None.
Proof.
  unfold urgency_order.
  repeat (case_decide; [subst; by vm_compute|]).
  rewrite !lookup_insert_ne by done. by rewrite lookup_singleton_ne.
Qed.

Lemma rank_of_str (t : ticket) (s : string) :
  urgency t = JStr s → ∃ k, rank t = Ok k ∧ (1 ≤ k ≤ 4)%Z.
Proof.
  intros Hu. unfold rank. rewrite Hu. simpl. rewrite urgency_order_lookup.
  repeat case_decide; eexists; (split; [reflexivity|simpl; lia]).
Qed.

Lemma rank_of_unexpected (t : ticket) (s : string) :
  urgency t = JStr s → s ∉ known_urgency → rank t = Ok 4%Z.
Proof.
  intros Hu Hs. unfold rank. rewrite Hu. simpl. rewrite urgency_order_lookup.
  unfold known_urgency in Hs.
  repeat (case_decide; [subst; exfalso; apply Hs; set_solver|]). done.
Qed.

(** C5: the sort of line 264 returns the tickets ascending in the rank
    High:1, Medium:2, Low:3, Unknown:4, every adjacent pair being in order,
    and it is stable: the tickets of one urgency keep their fetch order.
    This holds for every batch on which the key function does not raise. *)
Theorem C5_sort_ascending_and_stable (tickets : list ticket) :
  Forall (λ t, ∃ k, rank t = Ok k) tickets →
  (∀ t, (urgency t = JStr "High" → rank t = Ok 1%Z) ∧
        (urgency t = JStr "Medium" → rank t = Ok 2%Z) ∧
        (urgency t = JStr "Low" → rank t = Ok 3%Z) ∧
        (urgency t = JStr "Unknown" → rank t = Ok 4%Z)) ∧
  ∃ out, list_sort rank tickets = Ok out ∧
    out ≡ₚ tickets ∧
    (∀ i a b, out !! i = Some a → out !! S i = Some b →
       ∃ ka kb, rank a = Ok ka ∧ rank b = Ok kb ∧ (ka ≤ kb)%Z) ∧
    (∀ (P : ticket → Prop) (HP : ∀ t, Decision (P t)),
       (∀ a b, P a → P b → urgency a = urgency b) →
       filter P out = filter P tickets).
Proof.
  intros Hk. split.
  { intros t. unfold rank. repeat split; intros ->; reflexivity. }
  destruct (list_sort_spec rank tickets Hk) as (out & Hsort & Hperm & Hasc & Hst).
  exists out. repeat split; [done..| |].
  - intros i a b Ha Hb.
    destruct (Hasc (take i out) a (drop (S i) out)) as (ka & Hka & Hpost).
    { by rewrite take_drop_middle. }
    assert (Hin : b ∈ drop (S i) out).
    { apply list_elem_of_lookup. exists 0. by rewrite lookup_drop, Nat.add_0_r. }
    destruct (proj1 (Forall_forall _ _) Hpost b Hin) as (kb & Hkb & Hle).
    by exists ka, kb.
  - intros P HP Hhom. apply Hst. intros a b Pa Pb.
    unfold rank. by rewrite (Hhom a b Pa Pb).
Qed.

Lemma rank_of_hashable (t : ticket) :
  ¬ unhashable (urgency t) → ∃ k, rank t = Ok k ∧ (1 ≤ k ≤ 4)%Z.
Proof.
  intros Hu. destruct (urgency t) as [|b|n|s|l|m] eqn:E;
    try (by destruct Hu); try (unfold rank; rewrite E; by exists 4%Z).
  by apply (rank_of_str t s).
Qed.

Lemma rank_ahead (t : ticket) :
  ahead_of_unknown t = true → ∃ k, rank t = Ok k ∧ (k < 4)%Z.
Proof.
  unfold ahead_of_unknown, rank. destruct (urgency t) as [| | |s| |]; try done.
  intros Hs. apply bool_decide_eq_true in Hs.
  simpl. rewrite urgency_order_lookup.
  repeat (apply elem_of_cons in Hs as [->|Hs]; [by eexists|]).
  by apply elem_of_nil in Hs.
Qed.

Lemma rank_not_ahead (t : ticket) :
  ¬ unhashable (urgency t) → ahead_of_unknown t = false → rank t = Ok 4%Z.
Proof.
  unfold ahead_of_unknown, rank.
  destruct (urgency t) as [| | |s| |]; try done; try (by intros []).
  intros _ Hs. apply bool_decide_eq_false in Hs.
  simpl. rewrite urgency_order_lookup.
  repeat (case_decide; [subst; exfalso; apply Hs; set_solver|]).
  by case_decide.
Qed.

Lemma filter_agree {A} (P Q : A → Prop) `{∀ a, Decision (P a)}
      `{∀ a, Decision (Q a)} (l : list A) :
  Forall (λ a, P a ↔ Q a) l → filter P l = filter Q l.
Proof.
  induction 1 as [|a l Ha _ IH]; [done|]. rewrite !filter_cons, IH.
  destruct (decide (P a)) as [Hp|Hp], (decide (Q a)) as [Hq|Hq];
    try done; by destruct Ha; tauto.
Qed.

(** C10: an urgency text outside High, Medium, Low and Unknown gets rank
    4, the rank of Unknown. On a batch in which some urgencies are such
    texts the sort does not raise, and it puts these tickets last: no
    ticket whose urgency is High, Medium or Low stands behind one of them.
    The tickets of the last rank keep their fetch order. This holds for
    every batch whose urgencies can be looked up at all, numbers, truth
    values and null among them. *)
Theorem C10_unexpected_urgency_sorted_last (tickets : list ticket) :
  Forall (λ t, ¬ unhashable (urgency t)) tickets →
  (∀ t s, urgency t = JStr s → s ∉ known_urgency →
     rank t = Ok 4%Z ∧ rank t = urgency_order_get (JStr "Unknown") 4) ∧
  ∃ out, list_sort rank tickets = Ok out ∧
    out ≡ₚ tickets ∧
    (∀ pre t post s,
       out = pre ++ t :: post → urgency t = JStr s → s ∉ known_urgency →
       Forall (λ t', ahead_of_unknown t' = false) post) ∧
    filter (λ t, ahead_of_unknown t = false) out
      = filter (λ t, ahead_of_unknown t = false) tickets.
Proof.
  intros Hhash. split.
  { intros t s Hu Hs. by rewrite (rank_of_unexpected t s Hu Hs). }
  assert (Hk : Forall (λ t, ∃ k, rank t = Ok k) tickets).
  { eapply Forall_impl; [exact Hhash|]. intros t Ht.
    destruct (rank_of_hashable t Ht) as (k & ? & _). by exists k. }
  destruct (list_sort_spec rank tickets Hk)
    as (out & Hsort & Hperm & Hasc & Hst).
  exists out. split; [done|]. split; [done|]. split.
  - intros pre t post s Hout Hu Hs.
    pose proof (rank_of_unexpected t s Hu Hs) as Ht.
    destruct (Hasc pre t post Hout) as (ka & Hka & Hpost).
    rewrite Ht in Hka. inversion Hka; subst ka.
    eapply Forall_impl; [exact Hpost|]. intros t' (kb & Hkb & Hle).
    destruct (ahead_of_unknown t') eqn:Ha; [|done].
    destruct (rank_ahead t' Ha) as (k & Hk' & Hlt).
    rewrite Hk' in Hkb. inversion Hkb. lia.
  - set (last_rank := λ t, match rank t with
                           | Ok k => bool_decide (k = 4%Z)
                           | Err _ => false
                           end).
    assert (Hiff : ∀ l, l ≡ₚ tickets →
              Forall (λ t, ahead_of_unknown t = false
                           ↔ Is_true (last_rank t)) l).
    { intros l Hl. rewrite Hl.
      eapply Forall_impl; [exact Hhash|]. intros t Ht. unfold last_rank.
      split.
      - intros Ha. rewrite (rank_not_ahead t Ht Ha).
        by apply bool_decide_pack.
      - intros Hr. destruct (ahead_of_unknown t) eqn:Ha; [|done].
        destruct (rank_ahead t Ha) as (k & Hk' & Hlt). rewrite Hk' in Hr.
        apply bool_decide_unpack in Hr. lia. }
    rewrite (filter_agree _ (λ t, Is_true (last_rank t)) out (Hiff out Hperm)).
    rewrite (filter_agree _ (λ t, Is_true (last_rank t)) tickets
               (Hiff tickets (reflexivity _))).
    apply Hst. intros a b Ha Hb. unfold last_rank in Ha, Hb.
    destruct (rank a) as [ka|]; [|done]. destruct (rank b) as [kb|]; [|done].
    apply bool_decide_unpack in Ha, Hb. by subst.
Qed.

(** ** Whitespace *)

Lemma sub_ws_single_spaced (b : bool) (s : string) :
  single_spaced (Py.sub_ws b s) = true ∧
  (b = true →
   match Py.sub_ws b s with
   | EmptyString => True
   | String c _ => Py.isspace c = false
   end).
Proof.
  revert b. induction s as [|c s IH]; intros b; simpl; [done|].
  destruct (Py.isspace c) eqn:Hc.
  - destruct b.
    + apply IH.
    + destruct (IH true) as [Hs Hhd]. split; [|done].
      simpl. rewrite Hs. specialize (Hhd eq_refl).
      destruct (Py.sub_ws true s); [done|]. by rewrite Hhd.
  - split; [|done]. simpl. rewrite Hc. apply IH.
Qed.

Lemma single_spaced_tail (c : ascii) (s : string) :
  single_spaced (String c s) = true → single_spaced s = true.
Proof. simpl. intros Hs. by apply andb_true_iff in Hs as [_ ?]. Qed.

Lemma lstrip_single_spaced (s : string) :
  single_spaced s = true → single_spaced (Py.lstrip s) = true.
Proof.
  induction s as [|c s IH]; [done|]. intros Hs.
  cbn [Py.lstrip]. destruct (Py.isspace c); [|done].
  apply IH. by eapply single_spaced_tail.
Qed.

Lemma rstrip_head (s : string) (c : ascii) (r : string) :
  Py.rstrip s = String c r → ∃ s', s = String c s'.
Proof.
  destruct s as [|c' s]; simpl; [done|].
  destruct (Py.rstrip s); [destruct (Py.isspace c')|]; intros E;
    inversion E; by eexists.
Qed.

Lemma rstrip_single_spaced (s : string) :
  single_spaced s = true → single_spaced (Py.rstrip s) = true.
Proof.
  induction s as [|c s IH]; [done|]. intros Hs.
  pose proof (single_spaced_tail _ _ Hs) as Htl. specialize (IH Htl).
  cbn [Py.rstrip]. destruct (Py.rstrip s) as [|c' r] eqn:Hr.
  - destruct (Py.isspace c) eqn:Hc; [done|]. simpl. by rewrite Hc.
  - destruct (rstrip_head _ _ _ Hr) as [s' ->].
    simpl in Hs |- *. apply andb_true_iff in Hs as [Hhd _].
    rewrite Hhd. exact IH.
Qed.

(** Line 73 against the words of a text. *)

Lemma sub_ws_run_head (s : string) :
  match Py.sub_ws true s with
  | EmptyString => True
  | String c _ => Py.isspace c = false
  end.
Proof. by apply (sub_ws_single_spaced true s). Qed.

Lemma lstrip_sub_ws (s : string) :
  Py.lstrip (Py.sub_ws false s) = Py.sub_ws true s.
Proof.
  destruct s as [|c s]; [done|]. simpl.
  destruct (Py.isspace c) eqn:Hc; simpl.
  - pose proof (sub_ws_run_head s) as Hhd.
    destruct (Py.sub_ws true s) as [|c' r]; [done|]. simpl. by rewrite Hhd.
  - by rewrite Hc.
Qed.

Lemma cut_words_nonempty (s : string) :
  Forall (λ w, w ≠ EmptyString) (cut s).2.
Proof.
  induction s as [|c s IH]; simpl; [by apply Forall_nil|].
  destruct (cut s) as [w ws]. simpl in IH.
  destruct (Py.isspace c); simpl; [|done].
  destruct w; [done|]. by constructor.
Qed.

Lemma unwords_cons (w : string) (ws : list string) :
  unwords (w :: ws) =
    w +:+ match ws with [] => EmptyString | _ => " " +:+ unwords ws end.
Proof.
  destruct ws; simpl; [|done].
  induction w as [|c w IH]; [done|].
  change (String c w = String c (w +:+ "")). by f_equal.
Qed.

Lemma rstrip_cons (c : ascii) (s : string) :
  Py.rstrip (String c s) =
    match Py.rstrip s with
    | EmptyString => if Py.isspace c then EmptyString else String c EmptyString
    | r => String c r
    end.
Proof. done. Qed.

Lemma rstrip_sub_ws (s : string) (b : bool) :
  Py.rstrip (Py.sub_ws b s) =
    match cut s with
    | (EmptyString, []) => EmptyString
    | (EmptyString, ws) => (if b then EmptyString else " ") +:+ unwords ws
    | (w, ws) => unwords (w :: ws)
    end.
Proof.
  revert b. induction s as [|c s IH]; intros b; [done|].
  pose proof (cut_words_nonempty s) as Hne.
  cbn [Py.sub_ws cut]. destruct (cut s) as [w ws] eqn:Hcut. simpl in Hne.
  destruct (Py.isspace c) eqn:Hc.
  - assert (Hr : Py.rstrip (Py.sub_ws true s) =
                 unwords match w with EmptyString => ws | _ => w :: ws end).
    { rewrite IH. destruct w; [|done]. by destruct ws. }
    destruct b.
    + rewrite Hr. destruct w; by destruct ws.
    + rewrite rstrip_cons, Hr.
      destruct w as [|c' w].
      * destruct ws as [|w' ws]; [done|].
        apply Forall_cons in Hne as [Hw' _].
        rewrite unwords_cons. destruct w'; done.
      * rewrite unwords_cons. done.
  - rewrite rstrip_cons, IH.
    destruct w as [|c' w].
    + destruct ws as [|w' ws]; simpl; [by rewrite Hc|].
      apply Forall_cons in Hne as [Hw' _]. destruct w'; done.
    + rewrite !unwords_cons. done.
Qed.

(** Replacing the runs of whitespace and stripping the ends, as line 73
    does, leaves the words of the text with single spaces between them. *)
Lemma strip_sub_ws (s : string) :
  Py.strip (Py.sub_ws false s) = collapse_whitespace s.
Proof.
  unfold Py.strip, collapse_whitespace, words.
  rewrite lstrip_sub_ws, rstrip_sub_ws.
  destruct (cut s) as [[|c w] ws]; [|done]. by destruct ws.
Qed.

(** ** Body selection *)

Section BodyFacts.
Context {L : Library}.

Lemma clean_html_single_spaced (raw : string) :
  single_spaced (clean_html raw) = true.
Proof.
  unfold clean_html, Py.strip.
  apply rstrip_single_spaced, lstrip_single_spaced, sub_ws_single_spaced.
Qed.

Lemma clean_html_plain (raw : string) : clean_html raw = html_to_plain raw.
Proof. unfold clean_html, html_to_plain. apply strip_sub_ws. Qed.

Lemma decode_payload_text (p : part) :
  part_ok p → is_plain p ∨ is_html p → decode_payload p = Ok (decoded p).
Proof.
  unfold part_ok, is_plain, is_html. destruct p as [ct b|ct ps]; [done|].
  simpl. intros Hok. destruct (Hok eq_refl). intros [?|?]; done.
Qed.

Lemma scan_parts_spec (parts : list part) (body : string) :
  Forall part_ok parts →
  scan_parts parts body =
    Ok (match head (filter is_plain parts) with
        | Some p => decoded p
        | None =>
          match last (filter is_html parts) with
          | Some p => html_to_plain (decoded p)
          | None => body
          end
        end).
Proof.
  intros Hok. revert body.
  induction Hok as [|p parts Hp _ IH]; intros body; [done|].
  cbn [scan_parts]. rewrite !filter_cons.
  destruct (decide (get_content_type p = "text/plain")) as [Hpl|Hpl].
  - rewrite decide_True by done. simpl. by apply decode_payload_text; [|left].
  - rewrite (decide_False (P := is_plain p)) by done.
    destruct (decide (get_content_type p = "text/html")) as [Hh|Hh].
    + rewrite (decide_True (P := is_html p)) by done.
      rewrite decode_payload_text by (done || by right).
      unfold mbind, result_mbind. simpl. rewrite IH, last_cons.
      destruct (head (filter is_plain parts)); [done|].
      destruct (last (filter is_html parts)); [done|].
      by rewrite clean_html_plain.
    + rewrite (decide_False (P := is_html p)) by done. apply IH.
Qed.

(** Once a [text/plain] part is met, the parts behind it are not
    looked at. *)
Lemma scan_parts_stops (pre post : list part) (p : part) (body : string) :
  Forall (λ q, ¬ is_plain q) pre → is_plain p →
  scan_parts (pre ++ p :: post) body = scan_parts (pre ++ [p]) body.
Proof.
  intros Hpre Hp. revert body.
  induction Hpre as [|q pre Hq _ IH]; intros body; cbn [app scan_parts].
  - by rewrite !(decide_True (P := get_content_type p = "text/plain")) by done.
  - rewrite !(decide_False (P := get_content_type q = "text/plain")) by done.
    destruct (decide _); [|apply IH].
    destruct (decode_payload q); [|done]. apply IH.
Qed.
End BodyFacts.

(** C6: the body of a message is chosen by the policy of the
    specification. In a multi-part message the first [text/plain] part
    wins, whatever stands before or behind it, and the parts behind it are
    not scanned; without one, the last [text/html] part is used, its markup
    stripped and its runs of whitespace collapsed to single spaces; a
    single-part message gives its body, made plain in the same way when it
    is [text/html]. What [clean_html] computes is the words of the page
    text with single spaces between them, so that no whitespace is left at
    the ends either. *)
Theorem C6_body_selection {L : Library} (msg : part) :
  well_formed msg →
  extract_body msg = Ok (spec_body msg) ∧
  (∀ pre p post body,
     Forall (λ q, ¬ is_plain q) pre → is_plain p →
     scan_parts (pre ++ p :: post) body = scan_parts (pre ++ [p]) body) ∧
  (∀ raw, clean_html raw = unwords (words (get_text raw)) ∧
          single_spaced (clean_html raw) = true).
Proof.
  intros Hwf. split; [|split].
  - unfold extract_body, spec_body.
    destruct (is_multipart msg) eqn:Hm.
    + by apply scan_parts_spec.
    + assert (Hleaf : part_ok msg) by (intros ?; congruence).
      destruct (decide (get_content_type msg = "text/plain")) as [Hpl|Hpl].
      * rewrite (decide_True (P := is_plain msg)) by done.
        by apply decode_payload_text; [|left].
      * rewrite (decide_False (P := is_plain msg)) by done.
        destruct (decide (get_content_type msg = "text/html")) as [Hh|Hh].
        -- rewrite (decide_True (P := is_html msg)) by done.
           rewrite decode_payload_text by (done || by right).
           simpl. by rewrite clean_html_plain.
        -- by rewrite (decide_False (P := is_html msg)) by done.
  - intros. by apply scan_parts_stops.
  - intros raw. split; [apply clean_html_plain|].
    apply clean_html_single_spaced.
Qed.

(** ** The two service clients *)

Ltac run_M :=
  unfold try_except, try_except_class, lift, raise, print, emit, ask;
  unfold mbind, M_mbind, M_bind, mret, M_mret; simpl.

Section ClientFacts.
Context {L : Library}.

Lemma not_parsed_populated : populated not_parsed.
Proof. unfold populated, not_parsed. by repeat eexists. Qed.

Lemma api_failed_populated (e : exn) : populated (api_failed e).
Proof. unfold populated, api_failed. by repeat eexists. Qed.

Lemma analyze_returns (subject body : string) (w : World) :
  ∃ w', analyze_email_with_xai subject body w
        = (Ret (analysis_of (http_replies w)), w').
Proof.
  unfold analyze_email_with_xai, session_post, analysis_of. run_M.
  destruct (http_replies w) as [|[reply|e] rest]; simpl; [by eexists| |by eexists].
  destruct (message_content reply) as [content|e]; simpl; [|by eexists].
  destruct content; simpl; try by eexists.
  unfold loads. destruct (json_loads s); run_M; by eexists.
Qed.

Lemma generate_returns (subject body : string) (w : World) :
  ∃ w', generate_response_with_xai subject body w
        = (Ret (draft_of (http_replies w)), w').
Proof.
  unfold generate_response_with_xai, session_post, draft_of. run_M.
  destruct (http_replies w) as [|[reply|e] rest]; simpl; [by eexists| |by eexists].
  destruct (message_content reply) as [content|e]; simpl; [|by eexists].
  destruct content; simpl; by eexists.
Qed.
End ClientFacts.

Lemma lstrip_all_space (s : string) :
  string_forallb Py.isspace (Py.lstrip s) = string_forallb Py.isspace s.
Proof.
  induction s as [|c s IH]; [done|]. cbn [Py.lstrip].
  destruct (Py.isspace c) eqn:Hc; [|done]. simpl. by rewrite Hc.
Qed.

Lemma rstrip_empty (s : string) :
  Py.rstrip s = EmptyString ↔ string_forallb Py.isspace s = true.
Proof.
  induction s as [|c s IH]; [done|]. simpl.
  destruct (Py.rstrip s) as [|c' r].
  - destruct (Py.isspace c); simpl; [|done].
    split; [intros _; by apply IH|done].
  - split; [done|]. intros Hs. apply andb_true_iff in Hs as [_ Hs].
    by apply IH in Hs.
Qed.

Lemma strip_empty (s : string) :
  Py.strip s = EmptyString ↔ string_forallb Py.isspace s = true.
Proof. unfold Py.strip. by rewrite rstrip_empty, lstrip_all_space. Qed.

(** C7, as the code has it: the drafting operation always returns a text
    and never raises. After any failure the text is the fixed
    acknowledgment, which is not empty. After a success it is the content
    of the reply with the whitespace at both ends removed, which is not
    empty exactly when the content has a character that is not
    whitespace. *)
Theorem C7_draft_text (subject body : string) (w : World) :
  ∃ text w',
    generate_response_with_xai subject body w = (Ret text, w') ∧
    match http_replies w with
    | Ok reply :: _ =>
      match message_content reply with
      | Ok (JStr s) =>
        text = Py.strip s ∧
        (text ≠ "" ↔ string_forallb Py.isspace s = false)
      | _ => text = generic_acknowledgment
      end
    | _ => text = generic_acknowledgment
    end ∧
    generic_acknowledgment ≠ "".
Proof.
  destruct (generate_returns subject body w) as [w' Hrun].
  eexists _, w'. split; [exact Hrun|]. split; [|done].
  unfold draft_of.
  destruct (http_replies w) as [|[reply|e] rest]; [done| |done].
  destruct (message_content reply) as [[]|e]; try done.
  split; [done|]. rewrite <-not_true_iff_false. by rewrite strip_empty.
Qed.

(** C7 fails as stated: when the service answers with a content of
    whitespace only, the call succeeds and the draft is the empty text. *)
Lemma C7_counterexample :
  (generate_response_with_xai "Hello" "Hi there"
     (mkWorld (Ok tt) (Ok ("OK", None)) (λ _, Err connection_error)
              (λ _, Ok tt) [Ok (reply_with (JStr "  "))] [] [] [])).1
  = Ret "".
Proof. vm_compute. reflexivity. Qed.

(** C2, as the code has it: the analysis operation always returns and
    never raises. When the call fails, or the reply has no
    [choices[0].message.content], or the content is not a text, the result
    is the dictionary of lines 156-160 with the cause in its reasoning;
    when the content cannot be decoded it is the dictionary of lines
    148-152; both have the three fields, with urgency Unknown. When the
    content decodes, the decoded value is returned as it is. *)
Theorem C2_analysis_results {L : Library} (subject body : string) (w : World) :
  ∃ r w',
    analyze_email_with_xai subject body w = (Ret r, w') ∧
    match http_replies w with
    | [] => r = api_failed connection_error
    | Err e :: _ => r = api_failed e
    | Ok reply :: _ =>
      match message_content reply with
      | Err e => r = api_failed e
      | Ok (JStr s) =>
        match json_loads s with
        | Some v => r = v
        | None => r = not_parsed
        end
      | Ok _ => r = api_failed loads_type_error
      end
    end ∧
    not_parsed =
      JObj {[ "urgency" := JStr "Unknown";
              "reasoning" := JStr "Failed to parse API response";
              "summary" :=
                JStr "Unable to summarize due to invalid response format" ]} ∧
    (∀ e, api_failed e =
      JObj {[ "urgency" := JStr "Unknown";
              "reasoning" := JStr ("API error: " +:+ exn_str e);
              "summary" := JStr "Unable to summarize due to API failure" ]}) ∧
    populated not_parsed ∧ (∀ e, populated (api_failed e)).
Proof.
  destruct (analyze_returns subject body w) as [w' Hrun].
  eexists _, w'. split; [exact Hrun|].
  split; [|by auto using not_parsed_populated, api_failed_populated].
  unfold analysis_of.
  destruct (http_replies w) as [|[reply|e] rest]; [done| |done].
  destruct (message_content reply) as [[]|e]; try done.
  by destruct (json_loads s).
Qed.

(** C2 fails as stated, twice. A content that cannot be decoded gives the
    texts of the code, not those of the specification; and a content that
    decodes to an empty object is returned as it is, with no field. *)
Lemma C2_counterexample :
  let world content :=
    mkWorld (Ok tt) (Ok ("OK", None)) (λ _, Err connection_error)
            (λ _, Ok tt) [Ok (reply_with (JStr content))] [] [] [] in
  let analyze content :=
    (analyze_email_with_xai (L := example_library) "Hello" "Hi there"
       (world content)).1 in
  json_loads (Library := example_library) "not json" = None ∧
  analyze "not json" = Ret not_parsed ∧
  not_parsed ≠ spec_not_parseable ∧
  analyze "{}" = Ret (JObj ∅) ∧
  ¬ populated (JObj ∅).
Proof.
  split; [by vm_compute|]. split; [by vm_compute|]. split; [|split].
  - intros E.
    apply (f_equal (λ j, dict_get j "reasoning" JNull)) in E.
    vm_compute in E. discriminate.
  - by vm_compute.
  - intros (m & u & r & s & E & Hu & _). inversion E; subst m.
    by rewrite lookup_empty in Hu.
Qed.

(** ** What each function may append to the trace *)

Section Silent.
Context (P : event → Prop).

Lemma silent_ret {A} (a : A) : silent P (mret a).
Proof. intros w. exists []. by rewrite app_nil_r. Qed.

Lemma silent_raise {A} (e : exn) : silent P (raise (A := A) e).
Proof. intros w. exists []. by rewrite app_nil_r. Qed.

Lemma silent_sys_exit {A} (c : Z) : silent P (sys_exit (A := A) c).
Proof. intros w. exists []. by rewrite app_nil_r. Qed.

Lemma silent_lift {A} (r : result A) : silent P (lift r).
Proof. destruct r; [apply silent_ret|apply silent_raise]. Qed.

Lemma silent_ask {A} (f : World → A) : silent P (ask f).
Proof. intros w. exists []. by rewrite app_nil_r. Qed.

Lemma silent_emit (e : event) : P e → silent P (emit e).
Proof. intros He w. exists [e]. split; [done|]. by constructor. Qed.

Lemma silent_bind {A B} (m : M A) (f : A → M B) :
  silent P m → (∀ a, silent P (f a)) → silent P (M_bind m f).
Proof.
  intros Hm Hf w. unfold M_bind.
  destruct (Hm w) as (evs1 & E1 & F1).
  destruct (m w) as [[a|e|c] w1]; simpl in *; [|by exists evs1..].
  destruct (Hf a w1) as (evs2 & E2 & F2).
  exists (evs1 ++ evs2). rewrite E2, E1, app_assoc.
  split; [done|]. by apply Forall_app.
Qed.

Lemma silent_mbind {A B} (m : M A) (f : A → M B) :
  silent P m → (∀ a, silent P (f a)) → silent P (m ≫= f).
Proof. apply silent_bind. Qed.

Lemma silent_try_except {A} (m : M A) (h : exn → M A) :
  silent P m → (∀ e, silent P (h e)) → silent P (try_except m h).
Proof.
  intros Hm Hh w. unfold try_except.
  destruct (Hm w) as (evs1 & E1 & F1).
  destruct (m w) as [[a|e|c] w1]; simpl in *; [by exists evs1| |by exists evs1].
  destruct (Hh e w1) as (evs2 & E2 & F2).
  exists (evs1 ++ evs2). rewrite E2, E1, app_assoc.
  split; [done|]. by apply Forall_app.
Qed.

Lemma silent_try_except_class {A} (cls : string) (m h : M A) :
  silent P m → silent P h → silent P (try_except_class cls m h).
Proof.
  intros Hm Hh w. unfold try_except_class.
  destruct (Hm w) as (evs1 & E1 & F1).
  destruct (m w) as [[a|e|c] w1]; simpl in *; [by exists evs1| |by exists evs1].
  destruct (decide (exn_class e = cls)); [|by exists evs1].
  destruct (Hh w1) as (evs2 & E2 & F2).
  exists (evs1 ++ evs2). rewrite E2, E1, app_assoc.
  split; [done|]. by apply Forall_app.
Qed.

Lemma silent_input (prompt : string) :
  (∀ a, P (EInput prompt a)) → silent P (input prompt).
Proof.
  intros HP w. unfold input. destruct (stdin w); simpl; eexists [_];
    (split; [done|by constructor]).
Qed.

Lemma silent_session_post (sys prompt : string) (n : Z) :
  P (EServiceCall sys prompt n) → silent P (session_post sys prompt n).
Proof.
  intros HP w. unfold session_post.
  destruct (http_replies w) as [|[]]; simpl; eexists [_];
    (split; [done|by constructor]).
Qed.

Lemma silent_smtp_deliver (to subject body : string) :
  (∀ b, P (ESmtpSend to subject body b)) →
  silent P (smtp_deliver to subject body).
Proof.
  intros HP w. unfold smtp_deliver.
  destruct (smtp_replies w) as [|[]]; simpl; eexists [_];
    (split; [done|by constructor]).
Qed.
End Silent.

Ltac silence :=
  repeat first
    [ apply silent_ret | apply silent_raise | apply silent_sys_exit
    | apply silent_lift | apply silent_ask | apply silent_emit
    | apply silent_mbind | apply silent_bind
    | apply silent_try_except_class | apply silent_try_except
    | apply silent_input | apply silent_session_post
    | apply silent_smtp_deliver
    | progress intros
    | match goal with
      | |- silent _ (match ?x with _ => _ end) => destruct x
      end
    | solve [auto] ].

Section Footprints.
Context {L : Library} (P : event → Prop).

Lemma connect_to_email_silent (folder : string) :
  P (EImapConnect folder) → (∀ l, P (EPrint l)) →
  silent P (connect_to_email folder).
Proof. intros. unfold connect_to_email, imap_connect, print. silence. Qed.

Lemma imap_search_silent : P EImapSearch → silent P imap_search.
Proof. intros. unfold imap_search. silence. Qed.

Lemma imap_fetch_silent (id : string) :
  P (EImapFetch id) → silent P (imap_fetch id).
Proof. intros. unfold imap_fetch. silence. Qed.

Lemma imap_store_silent (id : string) :
  P (EImapStore id) → silent P (imap_store id).
Proof. intros. unfold imap_store. silence. Qed.

Lemma analyze_silent (subject body : string) :
  service_events P → silent P (analyze_email_with_xai subject body).
Proof.
  intros [? ?]. unfold analyze_email_with_xai, loads, print. silence.
Qed.

Lemma generate_silent (subject body : string) :
  service_events P → silent P (generate_response_with_xai subject body).
Proof.
  intros [? ?]. unfold generate_response_with_xai, print. silence.
Qed.

Lemma send_email_silent (to subject body : string) :
  (∀ a b c d, P (ESmtpSend a b c d)) → (∀ l, P (EPrint l)) →
  silent P (send_email to subject body).
Proof. intros. unfold send_email, print. silence. Qed.

Lemma build_tickets_silent (ids : list string) (acc : list ticket) :
  service_events P → (∀ id, P (EImapFetch id)) →
  silent P (build_tickets ids acc).
Proof.
  intros Hs Hf. revert acc. induction ids as [|id ids IH]; intros acc.
  - apply silent_ret.
  - cbn [build_tickets]. apply silent_mbind; [by apply imap_fetch_silent|].
    intros msg. apply silent_mbind; [apply silent_lift|].
    intros [[subject sender] body].
    apply silent_mbind; [by apply analyze_silent|]. intros analysis.
    apply silent_mbind; [by apply generate_silent|]. intros response.
    silence.
Qed.

Lemma ask_yn_loop_silent (prompt : string) (lines : list string) :
  (∀ a, P (EInput prompt a)) → (∀ l, P (EPrint l)) →
  silent P (ask_yn_loop prompt lines).
Proof.
  intros Hi Hp. induction lines as [|l lines IH]; cbn [ask_yn_loop];
    unfold print; silence.
Qed.

Lemma ask_yn_silent (prompt : string) :
  (∀ a, P (EInput prompt a)) → (∀ l, P (EPrint l)) →
  silent P (ask_yn prompt).
Proof. intros Hi Hp w. by apply ask_yn_loop_silent. Qed.

Lemma review_ticket_silent (i : nat) (t : ticket) :
  review_events P → silent P (review_ticket i t).
Proof.
  intros (? & ? & ? & ? & ?). unfold review_ticket.
  apply silent_bind; [by apply silent_emit|]. intros _.
  apply silent_mbind.
  { unfold edit_stage. apply silent_mbind; [by apply ask_yn_silent|].
    intros edit. silence. }
  intros t'. apply silent_bind; [|silence].
  unfold send_stage. apply silent_mbind; [by apply ask_yn_silent|].
  intros choice. destruct (decide _); [|silence].
  apply silent_bind; [by apply send_email_silent|]. intros _.
  by apply imap_store_silent.
Qed.

Lemma review_tickets_silent (i : nat) (ts : list ticket) :
  review_events P → silent P (review_tickets i ts).
Proof.
  intros HP. revert i. induction ts as [|t ts IH]; intros i;
    cbn [review_tickets]; [apply silent_ret|].
  apply silent_mbind; [by apply review_ticket_silent|]. intros t'.
  apply silent_mbind; [apply IH|]. silence.
Qed.
End Footprints.

(** ** The mailbox session *)

Section Session.
Context {L : Library}.

Lemma logout_last_logout : logout_last imap_logout.
Proof. intros w. exists [EImapLogout]. split; [done|]. by exists []. Qed.

Lemma logout_last_bind {A B} (m : M A) (f : A → M B) :
  silent not_logout m → (∀ a, logout_last (f a)) →
  logout_last (M_bind m f).
Proof.
  intros Hm Hf w. unfold M_bind.
  destruct (Hm w) as (evs1 & E1 & F1).
  destruct (m w) as [[a|e|c] w1]; simpl in *; [|by exists evs1..].
  destruct (Hf a w1) as (evs2 & E2 & F2).
  exists (evs1 ++ evs2). rewrite E2, E1, app_assoc. split; [done|].
  destruct ((f a w1).1).
  - destruct F2 as (evs' & -> & F2). exists (evs1 ++ evs').
    rewrite app_assoc. split; [done|]. by apply Forall_app.
  - by apply Forall_app.
  - by apply Forall_app.
Qed.

Lemma main_logout_last (folder : string) : logout_last (main folder).
Proof.
  unfold main.
  apply logout_last_bind; [by apply connect_to_email_silent|]. intros _.
  apply (logout_last_bind imap_search); [by apply imap_search_silent|].
  intros [status messages0].
  destruct (negb _ || _).
  - apply logout_last_bind; [by apply silent_emit|]. intros _.
    apply logout_last_logout.
  - apply (logout_last_bind (build_tickets _ _)).
    { by apply build_tickets_silent. }
    intros tickets.
    apply (logout_last_bind (lift _)); [apply silent_lift|].
    intros sorted.
    apply logout_last_bind; [|intros; apply logout_last_logout].
    by apply review_tickets_silent.
Qed.

Lemma main_no_unread (folder status : string) (messages0 : option string)
      (w : World) :
  imap_connect_reply w = Ok tt →
  imap_search_reply w = Ok (status, messages0) →
  status ≠ "OK" ∨ falsy messages0 = true →
  (main folder w).1 = Ret tt ∧
  trace (main folder w).2 =
    trace w ++ [EImapConnect folder; EImapSearch;
                EPrint "No unread emails found."; EImapLogout].
Proof.
  intros Hc Hs Hno.
  unfold main, connect_to_email, imap_connect, imap_search, imap_logout.
  run_M. rewrite Hc. simpl. rewrite Hs. simpl.
  assert (negb (bool_decide (status = "OK")) || falsy messages0 = true)
    as ->.
  { destruct Hno as [Hne| ->]; [|apply orb_true_r].
    by rewrite bool_decide_eq_false_2. }
  simpl. split; [done|]. by rewrite <-!app_assoc.
Qed.
End Session.

(** C8, as the code has it: a run of [main] that returns calls logout
    exactly once, as its last event; this covers the run that finds no
    unread message, which prints its notice, fetches nothing and logs out.
    A run that leaves by an exception, as when a message cannot be
    processed, or by [sys.exit], does not call logout. *)
Theorem C8_logout_once {L : Library} (folder : string) (w : World) :
  ∃ evs, trace (main folder w).2 = trace w ++ evs ∧
    match (main folder w).1 with
    | Ret _ =>
      ∃ evs', evs = evs' ++ [EImapLogout] ∧ Forall (λ e, e ≠ EImapLogout) evs'
    | _ => Forall (λ e, e ≠ EImapLogout) evs
    end ∧
    ∀ status messages0,
      imap_connect_reply w = Ok tt →
      imap_search_reply w = Ok (status, messages0) →
      status ≠ "OK" ∨ falsy messages0 = true →
      (main folder w).1 = Ret tt ∧
      evs = [EImapConnect folder; EImapSearch;
             EPrint "No unread emails found."; EImapLogout].
Proof.
  destruct (main_logout_last folder w) as (evs & Ht & Hpost).
  exists evs. split; [done|]. split; [exact Hpost|].
  intros status messages0 Hc Hs Hno.
  destruct (main_no_unread folder status messages0 w Hc Hs Hno) as [Hr Ht'].
  split; [done|]. rewrite Ht in Ht'. by apply app_inv_head in Ht'.
Qed.

(** ** The effects of the clients *)

Section ClientEffects.
Context {L : Library}.

Lemma analyze_run (subject body : string) (w : World) :
  let run := analyze_email_with_xai subject body w in
  run.1 = Ret (analysis_of (http_replies w)) ∧
  trace run.2 =
    trace w ++
    EServiceCall "You are an email analysis assistant."
                 (analysis_prompt subject body) 500 ::
    error_line "Error with xAI API: " (analysis_failure (http_replies w)) ∧
  http_replies run.2 = tail (http_replies w) ∧
  same_but_service w run.2.
Proof.
  unfold analyze_email_with_xai, session_post, analysis_of, analysis_failure,
    same_but_service. run_M.
  destruct (http_replies w) as [|[reply|e] rest] eqn:Hr; simpl;
    rewrite ?Hr, <-?app_assoc; try done.
  destruct (message_content reply) as [content|e]; simpl;
    rewrite <-?app_assoc; try done.
  destruct content; simpl; rewrite <-?app_assoc; try done.
  unfold loads. destruct (json_loads s); run_M; done.
Qed.

Lemma generate_run (subject body : string) (w : World) :
  let run := generate_response_with_xai subject body w in
  run.1 = Ret (draft_of (http_replies w)) ∧
  trace run.2 =
    trace w ++
    EServiceCall "You are an email response assistant."
                 (response_prompt subject body) 300 ::
    error_line "Error generating response: "
               (draft_failure (http_replies w)) ∧
  http_replies run.2 = tail (http_replies w) ∧
  same_but_service w run.2.
Proof.
  unfold generate_response_with_xai, session_post, draft_of, draft_failure,
    same_but_service. run_M.
  destruct (http_replies w) as [|[reply|e] rest] eqn:Hr; simpl;
    rewrite ?Hr, <-?app_assoc; try done.
  destruct (message_content reply) as [content|e]; simpl;
    rewrite <-?app_assoc; try done.
  destruct content; simpl; rewrite <-?app_assoc; done.
Qed.
End ClientEffects.

(** ** Worlds that differ in the service only *)


Lemma same_but_service_trans (w1 w2 w3 : World) :
  same_but_service w1 w2 → same_but_service w2 w3 → same_but_service w1 w3.
Proof.
  unfold same_but_service.
  intros (?&?&?&?&?&?) (?&?&?&?&?&?). repeat split; congruence.
Qed.

Lemma same_but_service_log (e : event) (w : World) :
  same_but_service w (log_event e w).
Proof. by repeat split. Qed.

Lemma lift_ret {A} (r : result A) (w w' : World) (a : A) :
  lift r w = (Ret a, w') → r = Ok a ∧ w' = w.
Proof. destruct r; unfold lift; run_M; intros E; by inversion E. Qed.

Lemma imap_fetch_ret (id : string) (w w' : World) (msg : message) :
  imap_fetch id w = (Ret msg, w') →
  imap_fetch_reply w id = Ok msg ∧ w' = log_event (EImapFetch id) w.
Proof.
  unfold imap_fetch. run_M. destruct (imap_fetch_reply w id); simpl;
    intros E; by inversion E.
Qed.

(** ** Building the tickets *)


Section Building.
Context {L : Library}.


Lemma analyze_failing (subject body : string) (w : World) :
  Forall is_err (http_replies w) →
  ∃ e w', analyze_email_with_xai subject body w = (Ret (api_failed e), w') ∧
          imap_fetch_reply w' = imap_fetch_reply w ∧
          Forall is_err (http_replies w').
Proof.
  intros Hall. unfold analyze_email_with_xai, session_post. run_M.
  destruct (http_replies w) as [|[j|e] rest] eqn:Hr; simpl.
  - eexists _, _. repeat split. simpl. by rewrite Hr.
  - apply Forall_cons in Hall as [[e He] _]. discriminate He.
  - apply Forall_cons in Hall as [_ Hall]. eexists _, _. by repeat split.
Qed.

Lemma generate_failing (subject body : string) (w : World) :
  Forall is_err (http_replies w) →
  ∃ w', generate_response_with_xai subject body w
          = (Ret generic_acknowledgment, w') ∧
        imap_fetch_reply w' = imap_fetch_reply w ∧
        Forall is_err (http_replies w').
Proof.
  intros Hall. unfold generate_response_with_xai, session_post. run_M.
  destruct (http_replies w) as [|[j|e] rest] eqn:Hr; simpl.
  - eexists. repeat split. simpl. by rewrite Hr.
  - apply Forall_cons in Hall as [[e He] _]. discriminate He.
  - apply Forall_cons in Hall as [_ Hall]. eexists. by repeat split.
Qed.

Lemma api_failed_degraded (id subject sender : string) (e : exn) :
  degraded (Ticket id subject sender (JStr "Unknown")
                   (JStr ("API error: " +:+ exn_str e))
                   (JStr "Unable to summarize due to API failure")
                   generic_acknowledgment).
Proof. repeat split. by eexists. Qed.

Lemma build_tickets_all_fail (ids : list string) (acc : list ticket)
      (w : World) :
  (∀ id, id ∈ ids →
     ∃ msg c s, imap_fetch_reply w id = Ok msg ∧
                parse_email_content msg = Ok c ∧ bytes_decode id = Ok s) →
  Forall is_err (http_replies w) →
  ∃ tickets w',
    build_tickets ids acc w = (Ret (acc ++ tickets), w') ∧
    length tickets = length ids ∧ Forall degraded tickets.
Proof.
  revert acc w. induction ids as [|id ids IH]; intros acc w Hmsg Hall.
  { exists [], w. by rewrite app_nil_r. }
  destruct (Hmsg id) as (msg & [[subject sender] body] & s & Hf & Hp & Hd).
  { apply list_elem_of_here. }
  cbn [build_tickets]. unfold imap_fetch. run_M. rewrite Hf, Hp. simpl.
  set (w1 := log_event (EImapFetch id) w).
  destruct (analyze_failing subject body w1 Hall) as (e & w2 & -> & Hf2 & Hall2).
  destruct (generate_failing subject body w2 Hall2) as (w3 & -> & Hf3 & Hall3).
  rewrite Hd. simpl.
  destruct (IH (acc ++ [Ticket s subject sender (JStr "Unknown")
                          (JStr ("API error: " +:+ exn_str e))
                          (JStr "Unable to summarize due to API failure")
                          generic_acknowledgment]) w3)
    as (tickets & w' & Hrun & Hlen & Hdeg); [|done|].
  { intros id' Hid'. rewrite Hf3, Hf2. apply Hmsg.
    by apply list_elem_of_further. }
  eexists (_ :: tickets), w'. split; [|split].
  - rewrite <-app_assoc in Hrun. exact Hrun.
  - simpl. by rewrite Hlen.
  - constructor; [apply api_failed_degraded|done].
Qed.








End Building.



(** An analysis payload that decodes to a JSON array: the call returns
    it, and [analysis.get] raises while the ticket is built. *)
Example non_object_payload_raises :
  let w := sample_world "1" (λ _, Ok sample_message)
                        [Ok (reply_with (JStr "[]"))] [] [] in
  (analyze_email_with_xai (L := example_library) "Server down"
     "The server is down" w).1 = Ret (JArr []) ∧
  (build_tickets (L := example_library) ["1"] [] w).1
    = Raise attribute_error.
Proof. by vm_compute. Qed.

(** A whole run: two unread messages, every call of the service fails,
    the operator sends the first reply and declines the second. *)
Example whole_run_with_failing_service :
  let w := sample_world "1 2" (λ _, Ok sample_message) [] [Ok tt]
                        ["n"; "y"; "n"; "n"] in
  let run := main (L := example_library) "inbox" w in
  run.1 = Ret tt ∧
  mail_events (trace run.2)
    = [EImapConnect "inbox"; EImapSearch; EImapFetch "1"; EImapFetch "2";
       ESmtpSend "ann@example.org" "Re: Server down"
                 "Thank you for your email. I will get back to you soon."
                 true;
       EImapStore "1"; EImapLogout] ∧
  length (shown_tickets (trace run.2)) = 2.
Proof. by vm_compute. Qed.

(** ** Failures *)

Section Failures.
Context {L : Library}.

Lemma connect_failure (folder : string) (w : World) (e : exn) :
  imap_connect_reply w = Err e →
  main folder w =
    (SysExit 1,
     log_event (EPrint ("Error connecting to email: " +:+ exn_str e))
               (log_event (EImapConnect folder) w)).
Proof.
  intros Hc. unfold main, connect_to_email, imap_connect, sys_exit. run_M.
  by rewrite Hc.
Qed.

Lemma send_email_returns (to subject body : string) (w : World) :
  ∃ w', send_email to subject body w = (Ret tt, w').
Proof.
  unfold send_email, smtp_deliver. run_M.
  destruct (smtp_replies w) as [|[[]|e] rest]; by eexists.
Qed.

Lemma build_tickets_fetch_raises (id : string) (rest : list string)
      (acc : list ticket) (w : World) (e : exn) :
  imap_fetch_reply w id = Err e →
  build_tickets (id :: rest) acc w = (Raise e, log_event (EImapFetch id) w).
Proof.
  intros Hf. cbn [build_tickets]. unfold imap_fetch. run_M. by rewrite Hf.
Qed.

Lemma build_tickets_parse_raises (id : string) (rest : list string)
      (acc : list ticket) (w : World) (msg : message) (e : exn) :
  imap_fetch_reply w id = Ok msg → parse_email_content msg = Err e →
  build_tickets (id :: rest) acc w = (Raise e, log_event (EImapFetch id) w).
Proof.
  intros Hf Hp. cbn [build_tickets]. unfold imap_fetch. run_M.
  by rewrite Hf, Hp.
Qed.
End Failures.

(** C3, as the code has it: a failure to connect to the mailbox ends the
    process with exit status 1. A failure of the analysis call, of the
    drafting call or of the delivery is caught inside the call, which
    returns. A failure while a message is fetched or parsed is not caught:
    it leaves the loop at once, and the messages behind it are not
    fetched. *)
Theorem C3_failure_propagation {L : Library} (w : World) :
  (∀ folder e,
     imap_connect_reply w = Err e → (main folder w).1 = SysExit 1) ∧
  (∀ subject body, ∃ r w',
     analyze_email_with_xai subject body w = (Ret r, w')) ∧
  (∀ subject body, ∃ r w',
     generate_response_with_xai subject body w = (Ret r, w')) ∧
  (∀ to subject body, ∃ w', send_email to subject body w = (Ret tt, w')) ∧
  (∀ id rest acc e,
     imap_fetch_reply w id = Err e →
     build_tickets (id :: rest) acc w
       = (Raise e, log_event (EImapFetch id) w)) ∧
  (∀ id rest acc msg e,
     imap_fetch_reply w id = Ok msg → parse_email_content msg = Err e →
     build_tickets (id :: rest) acc w
       = (Raise e, log_event (EImapFetch id) w)).
Proof.
  repeat split.
  - intros folder e Hc. by rewrite (connect_failure folder w e Hc).
  - intros subject body.
    destruct (analyze_returns subject body w) as [w' Hrun]. by eexists _, _.
  - intros subject body.
    destruct (generate_returns subject body w) as [w' Hrun]. by eexists _, _.
  - intros. apply send_email_returns.
  - intros. by apply build_tickets_fetch_raises.
  - intros. by eapply build_tickets_parse_raises.
Qed.

(** C3 fails as stated: the connection is made, the first of two unread
    messages has no Subject header, and [main] leaves by an uncaught
    exception after fetching it; the second message is never fetched. *)
Lemma C3_counterexample :
  let w := sample_world "1 2"
             (λ id, if String.eqb id "1" then Ok message_without_subject
                    else Ok sample_message) [] [] [] in
  let run := main (L := example_library) "inbox" w in
  imap_connect_reply w = Ok tt ∧
  run.1 = Raise subject_type_error ∧
  trace run.2 = [EImapConnect "inbox"; EImapSearch; EImapFetch "1"].
Proof. by vm_compute. Qed.

(** C8 fails as stated: the session is established, the only unread
    message has no Subject header, and the run ends by an uncaught
    exception without a logout. *)
Lemma C8_counterexample :
  let w := sample_world "7" (λ _, Ok message_without_subject) [] [] [] in
  let run := main (L := example_library) "inbox" w in
  imap_connect_reply w = Ok tt ∧
  run.1 = Raise subject_type_error ∧
  trace run.2 = [EImapConnect "inbox"; EImapSearch; EImapFetch "7"] ∧
  EImapLogout ∉ trace run.2.
Proof.
  repeat split; try by vm_compute.
  vm_compute. intros Hin. by repeat (inversion_clear Hin as [|? ? ? Hin']; rename Hin' into Hin).
Qed.

(** ** The review loop *)

Lemma chose_app (prompt answer : string) (l1 l2 : list event) :
  chose prompt answer (l1 ++ l2) ↔
  chose prompt answer l1 ∨ chose prompt answer l2.
Proof.
  unfold chose. split.
  - intros (line & Hin & Hl). apply elem_of_app in Hin as [Hin|Hin];
      [left|right]; by exists line.
  - intros [(line & Hin & Hl)|(line & Hin & Hl)]; exists line;
      (split; [apply elem_of_app; by auto|done]).
Qed.

Lemma chose_cons (prompt answer : string) (e : event) (l : list event) :
  chose prompt answer (e :: l) ↔
  chose prompt answer [e] ∨ chose prompt answer l.
Proof. apply (chose_app prompt answer [e] l). Qed.

Lemma chose_nil (prompt answer : string) : ¬ chose prompt answer [].
Proof. intros (line & Hin & _). by apply elem_of_nil in Hin. Qed.

Lemma chose_input (prompt prompt' answer line : string) :
  chose prompt answer [EInput prompt' (Some line)] ↔
  prompt' = prompt ∧ Py.lower line = answer.
Proof.
  unfold chose. split.
  - intros (l & Hin & Hl). apply list_elem_of_singleton in Hin.
    by inversion Hin; subst.
  - intros [-> Hl]. exists line. split; [apply list_elem_of_here|done].
Qed.

Lemma chose_other (prompt answer : string) (e : event) :
  (∀ p line, e ≠ EInput p (Some line)) → ¬ chose prompt answer [e].
Proof.
  intros He (l & Hin & _). apply list_elem_of_singleton in Hin.
  by eapply He.
Qed.

Lemma chose_prompt_events (prompt prompt' answer : string)
      (evs : list event) :
  prompt ≠ prompt' → Forall (prompt_event prompt') evs →
  ¬ chose prompt answer evs.
Proof.
  intros Hne Hall (line & Hin & _).
  destruct (proj1 (Forall_forall _ _) Hall _ Hin) as [[a E]|[l E]];
    inversion E; by subst.
Qed.

Lemma yn_elem (b : string) : b ∈ ["y"; "n"] ↔ b = "y" ∨ b = "n".
Proof.
  rewrite elem_of_cons, list_elem_of_singleton. done.
Qed.

Lemma prompt_event_input (prompt : string) (a : option string) :
  prompt_event prompt (EInput prompt a).
Proof. left. by exists a. Qed.

Lemma prompt_event_print (prompt line : string) :
  prompt_event prompt (EPrint line).
Proof. right. by exists line. Qed.

Section Asking.
Context {L : Library}.

(** A yes/no question prints and reads only at its prompt; it never
    exits; it returns ["y"] or ["n"], and returns an answer exactly when
    the operator gave it. *)
Lemma ask_yn_loop_spec (prompt : string) (lines : list string) (w : World) :
  ∃ evs, trace (ask_yn_loop prompt lines w).2 = trace w ++ evs ∧
    Forall (prompt_event prompt) evs ∧
    match (ask_yn_loop prompt lines w).1 with
    | Ret a =>
      (a = "y" ∨ a = "n") ∧ ∀ b, chose prompt b evs ∧ (b = "y" ∨ b = "n") ↔ a = b
    | Raise _ => ∀ b, b = "y" ∨ b = "n" → ¬ chose prompt b evs
    | SysExit _ => False
    end.
Proof.
  revert w. induction lines as [|next lines IH]; intros w.
  - cbn [ask_yn_loop]. unfold input, print. run_M.
    destruct (stdin w) as [|line rest]; simpl.
    + exists [EInput prompt None]. split; [done|]. split.
      { apply Forall_singleton, prompt_event_input. }
      intros b _. by apply chose_other.
    + case_bool_decide as Hv; simpl.
      * exists [EInput prompt (Some line)]. split; [done|]. split.
        { apply Forall_singleton, prompt_event_input. }
        apply yn_elem in Hv. split; [done|]. intros b.
        rewrite chose_input. split; [by intros [[_ ?] _]|].
        intros <-. by repeat split.
      * exists [EInput prompt (Some line); EPrint "Please enter 'y' or 'n'."].
        split; [by rewrite <-app_assoc|]. split.
        { apply Forall_cons. split; [apply prompt_event_input|].
          apply Forall_singleton, prompt_event_print. }
        intros b Hb. rewrite chose_cons, chose_input.
        intros [[_ Hl]|Hc]; [apply Hv, yn_elem; by rewrite Hl|].
        revert Hc. by apply chose_other.
  - cbn [ask_yn_loop]. unfold input, print. run_M.
    destruct (stdin w) as [|line rest]; simpl.
    + exists [EInput prompt None]. split; [done|]. split.
      { apply Forall_singleton, prompt_event_input. }
      intros b _. by apply chose_other.
    + case_bool_decide as Hv; simpl.
      * exists [EInput prompt (Some line)]. split; [done|]. split.
        { apply Forall_singleton, prompt_event_input. }
        apply yn_elem in Hv. split; [done|]. intros b.
        rewrite chose_input. split; [by intros [[_ ?] _]|].
        intros <-. by repeat split.
      * match goal with
        | |- context [ask_yn_loop prompt lines ?w1] =>
          destruct (IH w1) as (evs & Ht & Hall & Hres)
        end.
        exists ([EInput prompt (Some line); EPrint "Please enter 'y' or 'n'."]
                  ++ evs).
        split; [rewrite Ht; simpl; by rewrite <-!app_assoc|]. split.
        { apply Forall_app. split; [|done].
          apply Forall_cons. split; [apply prompt_event_input|].
          apply Forall_singleton, prompt_event_print. }
        assert (Hskip : ∀ b, b = "y" ∨ b = "n" →
                  (chose prompt b
                     ([EInput prompt (Some line);
                       EPrint "Please enter 'y' or 'n'."] ++ evs)
                   ↔ chose prompt b evs)).
        { intros b Hb. rewrite chose_app, chose_cons, chose_input.
          split; [|by right].
          intros [[[_ Hl]|Hc]|Hc]; [| |done].
          - exfalso. apply Hv, yn_elem. by rewrite Hl.
          - exfalso. revert Hc. by apply chose_other. }
        destruct (ask_yn_loop prompt lines _).1 as [a| |]; [|  |done].
        -- destruct Hres as [Ha Hres]. split; [done|]. intros b. split.
           ++ intros [Hc Hb]. apply Hres. split; [|done]. by apply Hskip.
           ++ intros <-. split; [|done]. apply Hskip; [done|].
              by apply (Hres a).
        -- intros b Hb Hc. apply (Hres b Hb). by apply Hskip.
Qed.

(** The loop raises only at the end of the keyboard input: the exception
    is the [EOFError] of [input], whose event ends the trace. *)
Lemma ask_yn_loop_eof (prompt : string) (lines : list string) (w : World)
      (e : exn) :
  lines = stdin w →
  (ask_yn_loop prompt lines w).1 = Raise e →
  ∃ evs, trace (ask_yn_loop prompt lines w).2
         = trace w ++ evs ++ [EInput prompt None].
Proof.
  revert w. induction lines as [|next lines IH]; intros w Hlines.
  - cbn [ask_yn_loop]. unfold input. run_M. rewrite <-Hlines. simpl.
    intros _. by exists [].
  - cbn [ask_yn_loop]. unfold input, print. run_M. rewrite <-Hlines. simpl.
    case_bool_decide as Hv; simpl; [done|].
    match goal with
    | |- context [ask_yn_loop prompt lines ?w1] =>
      intros Hr; destruct (IH w1 eq_refl Hr) as [evs Ht]
    end.
    exists ([EInput prompt (Some next); EPrint "Please enter 'y' or 'n'."]
              ++ evs).
    rewrite Ht. simpl. by rewrite <-!app_assoc.
Qed.

Lemma ask_yn_spec (prompt : string) (w : World) :
  ∃ evs, trace (ask_yn prompt w).2 = trace w ++ evs ∧
    Forall (prompt_event prompt) evs ∧
    match (ask_yn prompt w).1 with
    | Ret a =>
      (a = "y" ∨ a = "n") ∧ ∀ b, chose prompt b evs ∧ (b = "y" ∨ b = "n") ↔ a = b
    | Raise _ => ∀ b, b = "y" ∨ b = "n" → ¬ chose prompt b evs
    | SysExit _ => False
    end.
Proof. apply ask_yn_loop_spec. Qed.
End Asking.

Lemma prompts_distinct :
  edit_prompt ≠ text_prompt ∧ edit_prompt ≠ send_prompt ∧
  text_prompt ≠ send_prompt.
Proof. repeat split; by vm_compute. Qed.

Lemma chose_none (prompt answer : string) (evs : list event) :
  Forall (no_input_at prompt) evs → ¬ chose prompt answer evs.
Proof.
  intros Hall (line & Hin & _).
  by apply (proj1 (Forall_forall _ _) Hall _ Hin line).
Qed.

Lemma edit_event_no_send (e : event) :
  edit_event e → no_input_at send_prompt e.
Proof.
  destruct prompts_distinct as (_ & Hes & Hts).
  intros [[[a ->]|[l ->]]|[a ->]] line E; inversion E; by subst.
Qed.

Lemma edit_event_quiet (e : event) :
  edit_event e →
  (∀ id, e ≠ EImapStore id) ∧ (∀ a b c d, e ≠ ESmtpSend a b c d).
Proof. intros [[[a ->]|[l ->]]|[a ->]]; by split. Qed.

Lemma send_event_no_text (t : ticket) (e : event) :
  send_event t e → no_input_at text_prompt e.
Proof.
  destruct prompts_distinct as (_ & _ & Hts).
  intros [[[a ->]|[l ->]]|[(a & b & c & d & ->)| ->]] line E;
    inversion E; by subst.
Qed.

Section Stages.
Context {L : Library}.

Lemma send_email_spec (to subject body : string) (w : World) :
  ∃ d line w',
    send_email to subject body w = (Ret tt, w') ∧
    trace w' = trace w ++ [ESmtpSend to ("Re: " +:+ subject) body d;
                           EPrint line] ∧
    (d = true ↔ ∃ rest, smtp_replies w = Ok tt :: rest).
Proof.
  unfold send_email, smtp_deliver. run_M.
  destruct (smtp_replies w) as [|[[]|e] rest]; simpl.
  - exists false. eexists _, _. split; [done|].
    split; [simpl; by rewrite <-app_assoc|].
    split; [done|by intros [? ?]].
  - exists true. eexists _, _. split; [done|].
    split; [simpl; by rewrite <-app_assoc|]. split; [by eexists|done].
  - exists false. eexists _, _. split; [done|].
    split; [simpl; by rewrite <-app_assoc|].
    split; [done|by intros [? ?]].
Qed.

(** The edit decision: the ticket comes back with the text the operator
    typed at the text prompt, or unchanged when no text was read. *)
Lemma edit_stage_spec (t : ticket) (w : World) :
  ∃ evs, trace (edit_stage t w).2 = trace w ++ evs ∧
    Forall edit_event evs ∧
    match (edit_stage t w).1 with
    | Ret t' =>
      (∀ text, EInput text_prompt (Some text) ∈ evs →
               t' = set_response t text) ∧
      ((∀ text, EInput text_prompt (Some text) ∉ evs) → t' = t) ∧
      email_id t' = email_id t
    | Raise _ => True
    | SysExit _ => False
    end.
Proof.
  destruct prompts_distinct as (Het & _ & _).
  unfold edit_stage. unfold mbind, M_mbind, M_bind.
  destruct (ask_yn_spec edit_prompt w) as (e1 & T1 & F1 & R1).
  assert (Hno : ∀ text, EInput text_prompt (Some text) ∉ e1).
  { intros text Hin.
    destruct (proj1 (Forall_forall _ _) F1 _ Hin) as [[a E]|[l E]];
      inversion E; by subst. }
  assert (F1' : Forall edit_event e1).
  { eapply Forall_impl; [exact F1|]. intros e He. by left. }
  destruct (ask_yn edit_prompt w) as [[a|x|c] w1]; simpl in *;
    [|by exists e1|done].
  destruct (decide (a = "y")) as [_|_].
  - unfold input. destruct (stdin w1) as [|r rest]; simpl.
    + exists (e1 ++ [EInput text_prompt None]).
      rewrite T1, <-app_assoc. split; [done|]. split; [|done].
      apply Forall_app. split; [done|].
      apply Forall_singleton. right. by eexists.
    + exists (e1 ++ [EInput text_prompt (Some r)]).
      rewrite T1, <-app_assoc. split; [done|]. split.
      { apply Forall_app. split; [done|].
        apply Forall_singleton. right. by eexists. }
      split; [|split; [|done]].
      * intros text Hin. apply elem_of_app in Hin as [Hin|Hin].
        { by apply Hno in Hin. }
        apply list_elem_of_singleton in Hin. by inversion Hin.
      * intros Hnone. exfalso. apply (Hnone r).
        apply elem_of_app. right. apply list_elem_of_here.
  - exists e1. split; [done|]. split; [done|].
    split; [|done]. intros text Hin. by apply Hno in Hin.
Qed.

(** The send decision: a delivery is attempted, and the message marked as
    read, exactly when the operator answers yes; after the answer no the
    stage returns. *)
Lemma send_stage_spec (t : ticket) (w : World) :
  ∃ evs, trace (send_stage t w).2 = trace w ++ evs ∧
    Forall (send_event t) evs ∧
    (EImapStore (email_id t) ∈ evs ↔ chose send_prompt "y" evs) ∧
    ((∃ a b c d, ESmtpSend a b c d ∈ evs) ↔ chose send_prompt "y" evs) ∧
    (chose send_prompt "n" evs →
     ¬ chose send_prompt "y" evs ∧ (send_stage t w).1 = Ret tt) ∧
    (∀ c, (send_stage t w).1 ≠ SysExit c).
Proof.
  unfold send_stage. unfold mbind, M_mbind, M_bind.
  destruct (ask_yn_spec send_prompt w) as (e1 & T1 & F1 & R1).
  assert (Hq : (∀ id, EImapStore id ∉ e1) ∧
               (∀ a b c d, ESmtpSend a b c d ∉ e1)).
  { split; intros; intros Hin;
      destruct (proj1 (Forall_forall _ _) F1 _ Hin) as [[? E]|[? E]];
      inversion E. }
  destruct Hq as [Hns Hnd].
  assert (F1' : Forall (send_event t) e1).
  { eapply Forall_impl; [exact F1|]. intros e He. by left. }
  destruct (ask_yn send_prompt w) as [[a|x|c] w1]; simpl in *; [| |done].
  - destruct R1 as [Ha R1]. destruct (decide (a = "y")) as [->|Hny].
    + set (to := if decide ((parseaddr (sender t)).2 = "")
                 then sender t else (parseaddr (sender t)).2).
      destruct (send_email_spec to (subject t) (response t) w1)
        as (d & line & w2 & -> & T2 & _).
      unfold imap_store. run_M.
      assert (Hy : chose send_prompt "y" e1) by by apply (R1 "y").
      exists (e1 ++ [ESmtpSend to ("Re: " +:+ subject t) (response t) d;
                     EPrint line; EImapStore (email_id t)]).
      split.
      { destruct (imap_store_reply w2 (email_id t)); simpl;
          rewrite T2, T1, <-!app_assoc; done. }
      split.
      { apply Forall_app. split; [done|].
        repeat apply Forall_cons_2; [| | |constructor].
        - right. left. by eexists _, _, _, _.
        - left. apply prompt_event_print.
        - by right; right. }
      split; [|split; [|split]].
      * split; [intros _; apply chose_app; by left|intros _].
        apply elem_of_app. right. do 2 apply list_elem_of_further.
        apply list_elem_of_here.
      * split; [intros _; apply chose_app; by left|intros _].
        eexists _, _, _, _. apply elem_of_app. right. apply list_elem_of_here.
      * intros Hn. exfalso. apply chose_app in Hn as [Hn|Hn].
        -- pose proof (proj1 (R1 "n") (conj Hn (or_intror eq_refl))) as E.
           discriminate E.
        -- revert Hn. apply chose_none. repeat constructor; by intros ?.
      * intros c. by destruct (imap_store_reply w2 (email_id t)).
    + exists e1. split; [done|]. split; [done|].
      assert (Hy : ¬ chose send_prompt "y" e1).
      { intros Hy. apply Hny. apply (proj1 (R1 "y")). by auto. }
      split; [|split; [|split]]; [| |done..].
      * split; [intros Hin; by apply Hns in Hin|done].
      * split; [intros (?&?&?&?&Hin); by apply Hnd in Hin|done].
  - exists e1. split; [done|]. split; [done|].
    assert (Hy : ∀ b, b = "y" ∨ b = "n" → ¬ chose send_prompt b e1).
    { exact R1. }
    split; [|split; [|split]]; [| | |done].
    * split; [intros Hin; by apply Hns in Hin|]. intros Hc.
      by apply (Hy "y") in Hc; [|left].
    * split; [intros (?&?&?&?&Hin); by apply Hnd in Hin|]. intros Hc.
      by apply (Hy "y") in Hc; [|left].
    * intros Hc. by apply (Hy "n") in Hc; [|right].
Qed.
End Stages.

Section ReviewFacts.
Context {L : Library}.

(** One pass of the review loop, read off its events. *)
Lemma review_ticket_spec (i : nat) (t : ticket) (w : World) :
  ∃ evs, trace (review_ticket i t w).2 = trace w ++ evs ∧
    (∀ id, EImapStore id ∈ evs ↔
           id = email_id t ∧ chose send_prompt "y" evs) ∧
    ((∃ a b c d, ESmtpSend a b c d ∈ evs) ↔ chose send_prompt "y" evs) ∧
    (chose send_prompt "n" evs →
     ¬ chose send_prompt "y" evs ∧
     ∃ t', (review_ticket i t w).1 = Ret t' ∧
       (∀ text, EInput text_prompt (Some text) ∈ evs →
                t' = set_response t text) ∧
       ((∀ text, EInput text_prompt (Some text) ∉ evs) → t' = t)).
Proof.
  unfold review_ticket, emit. unfold mbind, M_mbind, M_bind. simpl.
  set (w0 := log_event (EShowTicket i t) w).
  destruct (edit_stage_spec t w0) as (e1 & T1 & F1 & R1).
  assert (Hc1 : ∀ b, ¬ chose send_prompt b (EShowTicket i t :: e1)).
  { intros b Hc. apply chose_cons in Hc as [Hc|Hc].
    - revert Hc. by apply chose_other.
    - revert Hc. apply chose_none.
      eapply Forall_impl; [exact F1|]. apply edit_event_no_send. }
  assert (Hq1 : (∀ id, EImapStore id ∉ EShowTicket i t :: e1) ∧
                (∀ a b c d, ESmtpSend a b c d ∉ EShowTicket i t :: e1)).
  { split; intros; intros Hin; apply elem_of_cons in Hin as [Hin|Hin];
      try discriminate Hin;
      destruct (edit_event_quiet _ (proj1 (Forall_forall _ _) F1 _ Hin))
        as [Hs Hd]; [by eapply Hs|by eapply Hd]. }
  destruct Hq1 as [Hs1 Hd1].
  destruct (edit_stage t w0) as [[t'|x|c] w1]; simpl in *; [| |done].
  - destruct R1 as (Rtext & Rnone & Rid).
    destruct (send_stage_spec t' w1) as (e2 & T2 & F2 & Hst & Hsd & Hn & Hex).
    exists ((EShowTicket i t :: e1) ++ e2).
    assert (Hc : ∀ b, chose send_prompt b ((EShowTicket i t :: e1) ++ e2)
                      ↔ chose send_prompt b e2).
    { intros b. rewrite chose_app. split; [|by right].
      intros [Hc|Hc]; [by apply Hc1 in Hc|done]. }
    assert (Ht : ∀ text,
              EInput text_prompt (Some text) ∈ (EShowTicket i t :: e1) ++ e2
              ↔ EInput text_prompt (Some text) ∈ e1).
    { intros text. rewrite elem_of_app, elem_of_cons. split; [|by auto].
      intros [[E|Hin]|Hin]; [discriminate E|done|].
      exfalso.
      by apply (send_event_no_text t' _
                  (proj1 (Forall_forall _ _) F2 _ Hin) text). }
    split; [|split; [|split]].
    + assert (trace w1 ++ e2 = trace w ++ (EShowTicket i t :: e1) ++ e2)
        as <-.
      { rewrite T1. subst w0. simpl. by rewrite <-!app_assoc. }
      by destruct (send_stage t' w1) as [[[]|y|c] w2].
    + intros id. rewrite Hc, elem_of_app. split.
      * intros [Hin|Hin]; [by apply Hs1 in Hin|].
        assert (id = email_id t') as ->.
        { destruct (proj1 (Forall_forall _ _) F2 _ Hin)
            as [[[a E]|[l E]]|[(a & b & c & d & E)|E]]; by inversion E. }
        split; [done|]. by apply Hst.
      * intros [-> Hy]. right. rewrite <-Rid. by apply Hst.
    + rewrite Hc, <-Hsd. split.
      * intros (a & b & c & d & Hin). apply elem_of_app in Hin as [Hin|Hin];
          [by apply Hd1 in Hin|by eexists _, _, _, _].
      * intros (a & b & c & d & Hin). exists a, b, c, d.
        apply elem_of_app. by right.
    + rewrite !Hc. intros Hno. destruct (Hn Hno) as [Hny Hret].
      split; [done|]. exists t'.
      destruct (send_stage t' w1) as [[[]|y|c] w2]; simpl in *;
        [|discriminate Hret..].
      split; [done|]. split.
      * intros text Hin. apply Rtext. by apply Ht.
      * intros Hnone. apply Rnone. intros text Hin.
        apply (Hnone text). by apply Ht.
  - exists (EShowTicket i t :: e1). split.
    { rewrite T1. subst w0. simpl. by rewrite <-app_assoc. }
    split; [|split].
    + intros id. split; [intros Hin; by apply Hs1 in Hin|].
      intros [_ Hy]. by apply Hc1 in Hy.
    + split; [intros (?&?&?&?&Hin); by apply Hd1 in Hin|].
      intros Hy. by apply Hc1 in Hy.
    + intros Hno. by apply Hc1 in Hno.
Qed.
End ReviewFacts.

(** C1, as the code has it: in one pass of the review loop the message is
    marked as read exactly when the operator chooses to send, and a
    delivery is attempted exactly then; whether the delivery succeeded
    plays no part, so the message is marked as read after a failed
    delivery too. Nothing is sent or marked when the operator declines, and
    no other message is marked. *)
Theorem C1_mark_read_iff_send_chosen {L : Library} (i : nat) (t : ticket)
        (w : World) :
  ∃ evs, trace (review_ticket i t w).2 = trace w ++ evs ∧
    (EImapStore (email_id t) ∈ evs ↔ chose send_prompt "y" evs) ∧
    ((∃ a b c d, ESmtpSend a b c d ∈ evs) ↔ chose send_prompt "y" evs) ∧
    (∀ a b c d, ESmtpSend a b c d ∈ evs → EImapStore (email_id t) ∈ evs) ∧
    (chose send_prompt "n" evs →
     ∀ id a b c d, (EImapStore id ∉ evs) ∧ (ESmtpSend a b c d ∉ evs)) ∧
    (∀ id, EImapStore id ∈ evs → id = email_id t).
Proof.
  destruct (review_ticket_spec i t w) as (evs & Ht & Hst & Hsd & Hn).
  exists evs. split; [done|]. split; [|split; [|split; [|split]]].
  - rewrite Hst. split; [by intros [_ ?]|by split].
  - done.
  - intros a b c d Hin. apply Hst. split; [done|]. apply Hsd.
    by exists a, b, c, d.
  - intros Hno id a b c d. destruct (Hn Hno) as [Hny _]. split.
    + intros Hin. by apply Hst in Hin as [_ ?].
    + intros Hin. apply Hny, Hsd. by exists a, b, c, d.
  - intros id Hin. by apply Hst in Hin as [? _].
Qed.

(** C1 fails as stated: the operator chooses to send, the delivery fails,
    and the message is marked as read all the same. *)
Lemma C1_counterexample :
  let t := Ticket "1" "Server down" "ann@example.org" (JStr "High")
                  (JStr "Outage") (JStr "The server is down") "On it." in
  let w := sample_world "1" (λ _, Ok sample_message) []
                        [Err (Exn "SMTPException" "relay denied")]
                        ["n"; "y"] in
  let run := review_ticket (L := example_library) 1 t w in
  run.1 = Ret t ∧
  trace run.2 =
    [EShowTicket 1 t;
     EInput edit_prompt (Some "n");
     EInput send_prompt (Some "y");
     ESmtpSend "ann@example.org" "Re: Server down" "On it." false;
     EPrint "Error sending email: relay denied";
     EImapStore "1"].
Proof. by vm_compute. Qed.

(** C9, as the code has it: when the operator edits the draft and then
    declines to send, the ticket's response is the text the operator typed
    and nothing else, no delivery is attempted, and the pass issues no
    mark-as-read, for this message or any other. *)
Theorem C9_edit_then_decline {L : Library} (i : nat) (t : ticket)
        (w : World) (text : string) :
  let run := review_ticket i t w in
  ∀ evs, trace run.2 = trace w ++ evs →
    chose edit_prompt "y" evs →
    EInput text_prompt (Some text) ∈ evs →
    chose send_prompt "n" evs →
    run.1 = Ret (set_response t text) ∧
    response (set_response t text) = text ∧
    (∀ a b c d, ESmtpSend a b c d ∉ evs) ∧
    (∀ id, EImapStore id ∉ evs).
Proof.
  intros run evs Ht _ Htext Hno. subst run.
  destruct (review_ticket_spec i t w) as (evs' & Ht' & Hst & Hsd & Hn).
  assert (evs' = evs) as ->.
  { rewrite Ht in Ht'. by apply app_inv_head in Ht'. }
  destruct (Hn Hno) as (Hny & t' & Hret & Hedit & _).
  rewrite Hret, (Hedit text Htext). split; [done|]. split; [done|]. split.
  - intros a b c d Hin. apply Hny, Hsd. by exists a, b, c, d.
  - intros id Hin. by apply Hst in Hin as [_ ?].
Qed.

(** C9 fails as stated. One unread message, the service is down, the
    operator edits the draft and declines to send. The ticket has no flag
    that could remain false: the pass that ends in a delivery leaves the
    very ticket that the pass ending in the refusal leaves. And the
    message does not stay unread: the run issues no mark-as-read, but it
    has fetched the text of the message from a folder opened read-write,
    which sets the read flag on the server. *)
Lemma C9_counterexample :
  let t := Ticket "1" "Server down" "Ann <ann@example.org>" (JStr "Unknown")
                  (JStr "API error: no reply from the service")
                  (JStr "Unable to summarize due to API failure")
                  generic_acknowledgment in
  let w := sample_world "1" (λ _, Ok sample_message) [] [Ok tt] in
  let run := main (L := example_library) "inbox"
                  (w ["y"; "Call me."; "n"]) in
  let declined := review_ticket (L := example_library) 1 t
                                (w ["y"; "Call me."; "n"]) in
  let sent := review_ticket (L := example_library) 1 t
                            (w ["y"; "Call me."; "y"]) in
  run.1 = Ret tt ∧
  trace run.2 =
    [EImapConnect "inbox"; EImapSearch; EImapFetch "1";
     EServiceCall "You are an email analysis assistant."
                  (analysis_prompt "Server down" "The server is down") 500;
     EPrint "Error with xAI API: no reply from the service";
     EServiceCall "You are an email response assistant."
                  (response_prompt "Server down" "The server is down") 300;
     EPrint "Error generating response: no reply from the service";
     EShowTicket 1 t;
     EInput edit_prompt (Some "y");
     EInput text_prompt (Some "Call me.");
     EInput send_prompt (Some "n");
     EImapLogout] ∧
  seen_on_server (trace run.2) = ["1"] ∧
  declined.1 = Ret (set_response t "Call me.") ∧
  mail_events (trace declined.2) = [] ∧
  sent.1 = declined.1 ∧
  mail_events (trace sent.2) =
    [ESmtpSend "ann@example.org" "Re: Server down" "Call me." true;
     EImapStore "1"].
Proof. by vm_compute. Qed.

(** ** The theorems at concrete inputs *)

Lemma sample_tickets_ranked :
  Forall (λ t, ∃ k, rank t = Ok k) sample_tickets.
Proof.
  unfold sample_tickets.
  repeat (apply Forall_cons; split; [by eexists|]). by apply Forall_nil.
Defined.

Lemma mixed_tickets_hashable :
  Forall (λ t, ¬ unhashable (urgency t)) mixed_tickets.
Proof.
  unfold mixed_tickets.
  repeat (apply Forall_cons; split; [by intros []|]). by apply Forall_nil.
Defined.

(** The sort of five tickets: the two High first, in fetch order, then
    Low, then the unexpected urgency and Unknown, in fetch order. *)
Lemma C5_witness :
  list_sort rank sample_tickets =
    Ok [sample_ticket "3" "High"; sample_ticket "5" "High";
        sample_ticket "1" "Low"; sample_ticket "2" "Critical";
        sample_ticket "4" "Unknown"] ∧
  ∃ out, list_sort rank sample_tickets = Ok out ∧ out ≡ₚ sample_tickets.
Proof.
  split; [by vm_compute|].
  destruct (C5_sort_ascending_and_stable sample_tickets sample_tickets_ranked)
    as (_ & out & Hsort & Hperm & _).
  by exists out.
Defined.

(** The sort of seven tickets of which the first has an unexpected
    urgency: High and Low come first, and behind them the tickets of rank
    4 in their fetch order, null and a number among them. *)
Lemma C10_witness :
  list_sort rank mixed_tickets =
    Ok [sample_ticket "3" "High"; sample_ticket "5" "Low";
        sample_ticket "1" "Critical";
        set_urgency (sample_ticket "2" "") JNull;
        set_urgency (sample_ticket "4" "") (JNum "3");
        sample_ticket "6" "Unknown"; sample_ticket "7" "high"] ∧
  ∃ out, list_sort rank mixed_tickets = Ok out ∧
    ∀ pre post, out = pre ++ sample_ticket "1" "Critical" :: post →
                Forall (λ t', ahead_of_unknown t' = false) post.
Proof.
  split; [by vm_compute|].
  destruct (C10_unexpected_urgency_sorted_last mixed_tickets
              mixed_tickets_hashable) as (_ & out & Hsort & _ & Hlast & _).
  exists out. split; [done|]. intros pre post Hout.
  apply (Hlast pre _ post "Critical" Hout eq_refl).
  unfold known_urgency. intros Hin.
  repeat (apply elem_of_cons in Hin as [Hin|Hin]; [discriminate Hin|]).
  by apply elem_of_nil in Hin.
Defined.


Lemma sample_multipart_well_formed : well_formed sample_multipart.
Proof.
  unfold well_formed, sample_multipart. simpl.
  repeat (apply Forall_cons; split; [by intros; split|]). by apply Forall_nil.
Defined.

Lemma sample_html_only_well_formed : well_formed sample_html_only.
Proof.
  unfold well_formed, sample_html_only. simpl.
  repeat (apply Forall_cons; split; [by intros; split|]). by apply Forall_nil.
Defined.

(** The plain text part wins although the HTML part stands first; without
    a plain text part the last HTML part is used, its markup stripped and
    its whitespace collapsed. *)
Lemma C6_witness :
  well_formed sample_multipart ∧
  extract_body (L := example_library) sample_multipart = Ok "Hi there" ∧
  well_formed sample_html_only ∧
  extract_body (L := example_library) sample_html_only
    = Ok "Hi there, Ann".
Proof.
  split; [exact sample_multipart_well_formed|]. split.
  { rewrite (proj1 (C6_body_selection (L := example_library) sample_multipart
                      sample_multipart_well_formed)).
    by vm_compute. }
  split; [exact sample_html_only_well_formed|].
  rewrite (proj1 (C6_body_selection (L := example_library) sample_html_only
                    sample_html_only_well_formed)).
  by vm_compute.
Defined.

(** The operator answers the edit question with an invalid line, then
    with yes, types a text, and declines to send. *)
Lemma C9_witness :
  let t := sample_ticket "1" "High" in
  let w := sample_world "1" (λ _, Ok sample_message) [] []
                        ["maybe"; "Y"; "We are on it."; "n"] in
  let evs :=
    [EShowTicket 1 t;
     EInput edit_prompt (Some "maybe"); EPrint "Please enter 'y' or 'n'.";
     EInput edit_prompt (Some "Y");
     EInput text_prompt (Some "We are on it.");
     EInput send_prompt (Some "n")] in
  trace (review_ticket (L := example_library) 1 t w).2 = trace w ++ evs ∧
  (review_ticket (L := example_library) 1 t w).1
    = Ret (set_response t "We are on it.") ∧
  (∀ id, EImapStore id ∉ evs).
Proof.
  cbv zeta.
  set (t := sample_ticket "1" "High").
  set (w := sample_world "1" (λ _, Ok sample_message) [] []
                         ["maybe"; "Y"; "We are on it."; "n"]).
  set (evs := [EShowTicket 1 t; _; _; _; _; _]).
  assert (Ht : trace (review_ticket (L := example_library) 1 t w).2
               = trace w ++ evs) by by vm_compute.
  assert (He : chose edit_prompt "y" evs).
  { exists "Y". split; [|by vm_compute].
    do 3 apply list_elem_of_further. apply list_elem_of_here. }
  assert (Hx : EInput text_prompt (Some "We are on it.") ∈ evs).
  { do 4 apply list_elem_of_further. apply list_elem_of_here. }
  assert (Hn : chose send_prompt "n" evs).
  { exists "n". split; [|by vm_compute].
    do 5 apply list_elem_of_further. apply list_elem_of_here. }
  destruct (C9_edit_then_decline (L := example_library) 1 t w
              "We are on it." evs Ht He Hx Hn) as (Hr & _ & _ & Hs).
  by repeat split.
Defined.

(** * Further properties *)

(** ** Credentials *)

(** X1: [setup_credentials] asks only for the credentials that are unset
    or empty, in the order address, password, key, and reads one line for
    each; a credential that is set is kept and not asked for. With enough
    lines on the keyboard it returns, having read exactly those lines. *)
Theorem setup_credentials_reads_missing (c : credentials) (w : World) :
  length (missing_prompts c) ≤ length (stdin w) →
  let run := setup_credentials c w in
  run.1 = Ret (completed c (stdin w)) ∧
  stdin run.2 = drop (length (missing_prompts c)) (stdin w) ∧
  trace run.2 =
    trace w ++ zip_with (λ p line, EInput p (Some line))
                        (missing_prompts c) (stdin w) ∧
  (falsy (EMAIL_ADDRESS c) = false →
   EMAIL_ADDRESS (completed c (stdin w)) = EMAIL_ADDRESS c) ∧
  (falsy (EMAIL_PASSWORD c) = false →
   EMAIL_PASSWORD (completed c (stdin w)) = EMAIL_PASSWORD c) ∧
  (falsy (XAI_API_KEY c) = false →
   XAI_API_KEY (completed c (stdin w)) = XAI_API_KEY c).
Proof.
  intros Hlen. unfold setup_credentials, missing_prompts, completed,
    keep_or_read, input in *. run_M.
  destruct c as [a p k]; simpl in *.
  destruct (falsy a), (falsy p), (falsy k); simpl in *;
    destruct (stdin w) as [|l1 [|l2 [|l3 rest]]] eqn:Hs; simpl in *;
    try lia; rewrite ?Hs; simpl; rewrite ?app_nil_r, <-?app_assoc;
    by repeat split.
Qed.

Lemma setup_credentials_eof_run (c : credentials) (w : World) :
  length (stdin w) < length (missing_prompts c) →
  (setup_credentials c w).1 = Raise (Exn "EOFError" "EOF when reading a line") ∧
  stdin (setup_credentials c w).2 = [].
Proof.
  intros Hlen. unfold setup_credentials, missing_prompts, input in *. run_M.
  destruct c as [a p k]; simpl in *.
  destruct (falsy a), (falsy p), (falsy k); simpl in *;
    destruct (stdin w) as [|l1 [|l2 [|l3 rest]]] eqn:Hs; simpl in *;
    try lia; rewrite ?Hs; by simpl.
Qed.

(** X2: when the keyboard input ends before every missing credential is
    read, [setup_credentials] leaves by [EOFError], with the input used
    up. *)
Theorem setup_credentials_eof (c : credentials) (w : World) :
  length (stdin w) < length (missing_prompts c) →
  (setup_credentials c w).1 = Raise (Exn "EOFError" "EOF when reading a line") ∧
  stdin (setup_credentials c w).2 = [].
Proof. apply setup_credentials_eof_run. Qed.

(** ** The whitespace normal form *)

Lemma sub_ws_non_space (b : bool) (s : string) :
  string_filter non_space (Py.sub_ws b s) = string_filter non_space s.
Proof.
  revert b. induction s as [|c s IH]; intros b; [done|]. simpl.
  unfold non_space at 2. destruct (Py.isspace c) eqn:Hc; simpl.
  - destruct b; [apply IH|]. simpl. apply IH.
  - unfold non_space at 1. rewrite Hc. simpl. by rewrite IH.
Qed.

Lemma lstrip_non_space (s : string) :
  string_filter non_space (Py.lstrip s) = string_filter non_space s.
Proof.
  induction s as [|c s IH]; [done|]. cbn [Py.lstrip].
  destruct (Py.isspace c) eqn:Hc; [|done].
  simpl. unfold non_space at 2. by rewrite Hc.
Qed.

Lemma rstrip_non_space (s : string) :
  string_filter non_space (Py.rstrip s) = string_filter non_space s.
Proof.
  induction s as [|c s IH]; [done|]. simpl.
  destruct (Py.rstrip s) as [|c' r].
  - simpl in IH. rewrite <-IH.
    destruct (Py.isspace c) eqn:Hc; simpl; unfold non_space; by rewrite Hc.
  - simpl in *. by rewrite IH.
Qed.

Lemma lstrip_first (s : string) : not_space (first_char (Py.lstrip s)).
Proof.
  induction s as [|c s IH]; [done|]. cbn [Py.lstrip].
  by destruct (Py.isspace c) eqn:Hc.
Qed.

Lemma rstrip_first (s : string) :
  not_space (first_char s) → not_space (first_char (Py.rstrip s)).
Proof.
  intros Hs. destruct (Py.rstrip s) as [|c r] eqn:Hr; [done|].
  by destruct (rstrip_head _ _ _ Hr) as [s' ->].
Qed.

Lemma rstrip_last (s : string) : not_space (last_char (Py.rstrip s)).
Proof.
  induction s as [|c s IH]; [done|]. simpl.
  destruct (Py.rstrip s) as [|c' r].
  - by destruct (Py.isspace c) eqn:Hc.
  - exact IH.
Qed.

Lemma sub_ws_fixed (b : bool) (s : string) :
  single_spaced s = true → (b = true → not_space (first_char s)) →
  Py.sub_ws b s = s.
Proof.
  revert b. induction s as [|c s IH]; intros b Hs Hb; [done|].
  simpl in *. apply andb_true_iff in Hs as [Hc Hs].
  destruct (Py.isspace c) eqn:Hsp.
  - destruct b; [by specialize (Hb eq_refl)|].
    apply andb_true_iff in Hc as [Hc Hnext].
    apply bool_decide_eq_true in Hc as ->. f_equal.
    apply IH; [done|]. intros _. destruct s; [done|]. simpl.
    by apply negb_true_iff.
  - f_equal. by apply IH.
Qed.

Lemma lstrip_fixed (s : string) :
  not_space (first_char s) → Py.lstrip s = s.
Proof. destruct s as [|c s]; [done|]. simpl. by intros ->. Qed.

Lemma rstrip_fixed (s : string) :
  not_space (last_char s) → Py.rstrip s = s.
Proof.
  induction s as [|c s IH]; [done|]. intros Hl.
  destruct s as [|c' s].
  - simpl in *. by rewrite Hl.
  - specialize (IH Hl). remember (String c' s) as s1 eqn:Hs1.
    simpl. rewrite IH. by subst s1.
Qed.

(** X3: the text [clean_html] returns neither starts nor ends with
    whitespace, holds the characters of the page's text that are not
    whitespace, in their order, and is left unchanged by a second pass of
    the whitespace normalisation. *)
Theorem clean_html_normal_form {L : Library} (raw_html : string) :
  let text := clean_html raw_html in
  not_space (first_char text) ∧
  not_space (last_char text) ∧
  string_filter non_space text = string_filter non_space (get_text raw_html) ∧
  Py.strip (Py.sub_ws false text) = text.
Proof.
  assert (Hfirst : not_space (first_char (clean_html raw_html))).
  { unfold clean_html, Py.strip. apply rstrip_first, lstrip_first. }
  assert (Hlast : not_space (last_char (clean_html raw_html))).
  { unfold clean_html, Py.strip. apply rstrip_last. }
  simpl. split; [done|]. split; [done|]. split.
  - unfold clean_html, Py.strip.
    by rewrite rstrip_non_space, lstrip_non_space, sub_ws_non_space.
  - rewrite sub_ws_fixed by (done || apply clean_html_single_spaced).
    unfold Py.strip at 1. rewrite lstrip_fixed by done.
    by apply rstrip_fixed.
Qed.

(** ** Parsing a message *)

Section ParseFacts.
Context {L : Library}.

Lemma scan_parts_no_text (parts : list part) (body : string) :
  Forall (λ p, ¬ is_plain p ∧ ¬ is_html p) parts →
  scan_parts parts body = Ok body.
Proof.
  induction 1 as [|p parts [Hp Hh] _ IH]; [done|]. cbn [scan_parts].
  rewrite (decide_False (P := get_content_type p = "text/plain")) by done.
  by rewrite (decide_False (P := get_content_type p = "text/html")) by done.
Qed.

Lemma extract_body_spec (msg : part) :
  well_formed msg → extract_body msg = Ok (spec_body msg).
Proof.
  intros Hwf. unfold extract_body, spec_body.
  destruct (is_multipart msg) eqn:Hm; [by apply scan_parts_spec|].
  assert (Hleaf : part_ok msg) by (intros ?; congruence).
  destruct (decide (get_content_type msg = "text/plain")) as [Hpl|Hpl].
  - rewrite (decide_True (P := is_plain msg)) by done.
    by apply decode_payload_text; [|left].
  - rewrite (decide_False (P := is_plain msg)) by done.
    destruct (decide (get_content_type msg = "text/html")) as [Hh|Hh].
    + rewrite (decide_True (P := is_html msg)) by done.
      rewrite decode_payload_text by (done || by right).
      simpl. by rewrite clean_html_plain.
    + by rewrite (decide_False (P := is_html msg)) by done.
Qed.
End ParseFacts.

(** X4: a message none of whose parts is [text/plain] or [text/html] has
    the empty body, and extracting it does not fail, whatever the shape of
    the message. *)
Theorem extract_body_without_text {L : Library} (msg : part) :
  Forall (λ p, ¬ is_plain p ∧ ¬ is_html p) (walk msg) →
  extract_body msg = Ok "".
Proof.
  intros Hall. unfold extract_body.
  destruct (is_multipart msg) eqn:Hm; [by apply scan_parts_no_text|].
  destruct msg as [ct b|ct ps]; [|done]. simpl in Hall.
  apply Forall_cons in Hall as [[Hp Hh] _].
  rewrite (decide_False (P := get_content_type (Leaf ct b) = "text/plain"))
    by done.
  by rewrite (decide_False (P := get_content_type (Leaf ct b) = "text/html"))
    by done.
Qed.

(** X5: [parse_email_content] draws the subject from the first chunk of
    the decoded Subject header alone, decoding it strictly when it is
    bytes, so that a decoding failure leaves the function; the sender is
    the From header as it stands; the body follows the selection policy. *)
Theorem parse_email_content_first_chunk {L : Library} (msg : message)
        (h : string) (chunk : header_chunk) (charset : option string)
        (more : list (header_chunk * option string)) :
  msg_subject msg = Some h →
  decode_header h = (chunk, charset) :: more →
  well_formed (msg_root msg) →
  parse_email_content msg =
    match chunk_text chunk with
    | Ok subject => Ok (subject, msg_from msg, spec_body (msg_root msg))
    | Err e => Err e
    end.
Proof.
  intros Hs Hd Hwf. unfold parse_email_content, extract_subject, chunk_text.
  rewrite Hs, Hd. unfold mbind, result_mbind.
  destruct chunk as [s|b]; simpl.
  - by rewrite extract_body_spec.
  - destruct (bytes_decode b); simpl; [|done]. by rewrite extract_body_spec.
Qed.


(** ** What the clients report *)

Lemma prefix_append (p s : string) : String.prefix p (p +:+ s) = true.
Proof.
  induction p as [|c p IH]; [by destruct s|].
  simpl. by destruct (ascii_dec c c).
Qed.

Lemma reports_error_line (prefix : string) (failure : option exn) :
  reports prefix (error_line prefix failure) = error_line prefix failure.
Proof.
  destruct failure as [e|]; [|done]. unfold reports, error_line.
  rewrite filter_cons_True; [done|]. simpl. by rewrite prefix_append.
Qed.

(** X6: [analyze_email_with_xai] prints the line that begins with
    [Error with xAI API: ] exactly when its handler of line 153 runs, that
    is when the call failed, the reply had no content, or the content was
    no text; the line carries the cause, and the result is the dictionary
    of lines 156-160 for that cause. A content text that cannot be
    decoded gives the dictionary of lines 148-152 and no such line. The
    call leaves the mailbox, the keyboard and the mail server alone. *)
Theorem analyze_error_report {L : Library} (subject body : string)
        (w : World) :
  let run := analyze_email_with_xai subject body w in
  ∃ evs, trace run.2 = trace w ++ evs ∧
    reports "Error with xAI API: " evs
      = error_line "Error with xAI API: "
                   (analysis_failure (http_replies w)) ∧
    (∀ e, analysis_failure (http_replies w) = Some e →
          run.1 = Ret (api_failed e)) ∧
    (∀ reply rest s,
       http_replies w = Ok reply :: rest →
       message_content reply = Ok (JStr s) → json_loads s = None →
       run.1 = Ret not_parsed ∧ reports "Error with xAI API: " evs = []) ∧
    same_but_service w run.2.
Proof.
  destruct (analyze_run subject body w) as (Hr & Ht & _ & Hs).
  simpl in *. eexists. split; [exact Ht|].
  assert (Hrep : reports "Error with xAI API: "
                   (EServiceCall "You are an email analysis assistant."
                      (analysis_prompt subject body) 500
                    :: error_line "Error with xAI API: "
                         (analysis_failure (http_replies w)))
                 = error_line "Error with xAI API: "
                     (analysis_failure (http_replies w))).
  { unfold reports. rewrite filter_cons_False by (simpl; tauto).
    apply reports_error_line. }
  split; [exact Hrep|]. split; [|split; [|exact Hs]].
  - intros e He. rewrite Hr. f_equal.
    unfold analysis_of, analysis_failure in *.
    destruct (http_replies w) as [|[reply|e'] rest]; [congruence| |congruence].
    destruct (message_content reply) as [[]|e'']; congruence.
  - intros reply rest s Hw Hc Hl. rewrite Hrep, Hr.
    unfold analysis_of, analysis_failure. by rewrite Hw, Hc, Hl.
Qed.

(** X7: [generate_response_with_xai] prints the line that begins with
    [Error generating response: ] exactly when it falls back to the
    acknowledgment, that is when the call failed, the reply had no
    content, or the content was no text; the line carries the cause.
    Otherwise it prints no such line and returns the content, stripped.
    The call leaves the mailbox, the keyboard and the mail server alone. *)
Theorem generate_error_report (subject body : string) (w : World) :
  let run := generate_response_with_xai subject body w in
  ∃ evs, trace run.2 = trace w ++ evs ∧
    reports "Error generating response: " evs
      = error_line "Error generating response: "
                   (draft_failure (http_replies w)) ∧
    (draft_failure (http_replies w) ≠ None →
     run.1 = Ret generic_acknowledgment) ∧
    (draft_failure (http_replies w) = None →
     ∃ reply rest s,
       http_replies w = Ok reply :: rest ∧
       message_content reply = Ok (JStr s) ∧ run.1 = Ret (Py.strip s)) ∧
    same_but_service w run.2.
Proof.
  destruct (generate_run subject body w) as (Hr & Ht & _ & Hs).
  simpl in *. eexists. split; [exact Ht|]. split; [|split; [|split]].
  - unfold reports. rewrite filter_cons_False by (simpl; tauto).
    apply reports_error_line.
  - intros Hf. rewrite Hr. f_equal.
    unfold draft_of, draft_failure in *.
    destruct (http_replies w) as [|[reply|e] rest]; try done.
    by destruct (message_content reply) as [[]|e].
  - intros Hf. rewrite Hr. unfold draft_of, draft_failure in *.
    destruct (http_replies w) as [|[reply|e] rest]; try done.
    destruct (message_content reply) as [[| | |s| |]|e] eqn:Hc; try done.
    by exists reply, rest, s.
  - exact Hs.
Qed.

(** ** The tickets and their messages *)

Section TicketFacts.
Context {L : Library}.

Lemma build_tickets_run (ids : list string) (acc tickets : list ticket)
      (w w' : World) :
  build_tickets ids acc w = (Ret tickets, w') →
  ∃ new, tickets = acc ++ new ∧
    Forall2 (built_for (imap_fetch_reply w)) ids new ∧
    http_replies w' = drop (2 * length ids) (http_replies w) ∧
    same_but_service w w'.
Proof.
  revert acc w. induction ids as [|id ids IH]; intros acc w Hrun.
  { inversion Hrun; subst. exists []. rewrite app_nil_r.
    split; [done|]. split; [constructor|]. by repeat split. }
  cbn [build_tickets] in Hrun. unfold mbind, M_mbind, M_bind in Hrun.
  destruct (imap_fetch id w) as [[msg| |] w1] eqn:E1; try discriminate Hrun.
  apply imap_fetch_ret in E1 as [Hf ->].
  destruct (lift (parse_email_content msg) _) as [[[[s sd] b]| |] w2] eqn:E2;
    try discriminate Hrun.
  apply lift_ret in E2 as [Hp ->].
  set (w1 := log_event (EImapFetch id) w) in *.
  destruct (analyze_run s b w1) as (_ & _ & Hh3 & Hs3).
  destruct (analyze_email_with_xai s b w1) as [[a| |] w3];
    try discriminate Hrun. simpl in Hh3, Hs3.
  destruct (generate_run s b w3) as (_ & _ & Hh4 & Hs4).
  destruct (generate_response_with_xai s b w3) as [[r| |] w4];
    try discriminate Hrun. simpl in Hh4, Hs4.
  destruct (lift (bytes_decode id) w4) as [[i| |] w5] eqn:E5;
    try discriminate Hrun.
  apply lift_ret in E5 as [Hi ->].
  destruct (lift (dict_get a "urgency" _) w4) as [[u| |] w6] eqn:E6;
    try discriminate Hrun.
  apply lift_ret in E6 as [_ ->].
  destruct (lift (dict_get a "reasoning" _) w4) as [[re| |] w7] eqn:E7;
    try discriminate Hrun.
  apply lift_ret in E7 as [_ ->].
  destruct (lift (dict_get a "summary" _) w4) as [[su| |] w8] eqn:E8;
    try discriminate Hrun.
  apply lift_ret in E8 as [_ ->].
  apply IH in Hrun as (new & -> & Hall & Hh & Hs).
  assert (Hw : same_but_service w w4).
  { apply (same_but_service_trans w w1 w4);
      [apply same_but_service_log|].
    by apply (same_but_service_trans w1 w3 w4). }
  exists (Ticket i s sd u re su r :: new). split; [by rewrite <-app_assoc|].
  destruct Hw as (Hw1 & Hw2 & Hw3 & Hw4 & Hw5 & Hw6).
  split; [|split].
  - constructor; [by exists msg, b|]. by rewrite <-Hw3.
  - rewrite Hh, Hh4, Hh3. subst w1. simpl.
    destruct (http_replies w) as [|r1 [|r2 rest]]; simpl;
      rewrite ?drop_nil; try done.
    by rewrite Nat.add_0_r, Nat.add_succ_r.
  - eapply same_but_service_trans; [|exact Hs]. by repeat split.
Qed.
End TicketFacts.

(** X8: when the loop of lines 244-261 runs to its end, its tickets stand
    in the order of the unread identifiers; each ticket carries the decoded
    identifier and the subject and sender parsed from the message fetched
    for it. Two replies of the service are used up per message, and the
    mailbox, the keyboard and the mail server are left as they were. *)
Theorem build_tickets_in_fetch_order {L : Library} (ids : list string)
        (tickets : list ticket) (w w' : World) :
  build_tickets ids [] w = (Ret tickets, w') →
  Forall2 (built_for (imap_fetch_reply w)) ids tickets ∧
  http_replies w' = drop (2 * length ids) (http_replies w) ∧
  same_but_service w w'.
Proof.
  intros Hrun. by apply build_tickets_run in Hrun as (new & -> & ? & ? & ?).
Qed.

(** X9: the ticket of a message takes its urgency, reasoning and summary
    from the analysis when that is an object, with Unknown, No reasoning
    provided and No summary available for a missing field, and its
    response from the draft, read from the next reply of the service. When
    the analysis is not an object, building the ticket raises
    AttributeError. *)
Theorem ticket_fields_from_analysis {L : Library} (id i s sd b : string)
        (msg : message) (w : World) :
  imap_fetch_reply w id = Ok msg →
  parse_email_content msg = Ok (s, sd, b) →
  bytes_decode id = Ok i →
  (build_tickets [id] [] w).1 =
    match analysis_of (http_replies w) with
    | JObj m => Ret [ticket_of i s sd m (draft_of (tail (http_replies w)))]
    | _ => Raise attribute_error
    end.
Proof.
  intros Hf Hp Hi. cbn [build_tickets]. unfold imap_fetch. run_M.
  rewrite Hf, Hp. simpl.
  set (w1 := log_event (EImapFetch id) w).
  destruct (analyze_run s b w1) as (Ha & _ & Hh3 & _).
  destruct (analyze_email_with_xai s b w1) as [a w3]. simpl in Ha, Hh3.
  subst a.
  destruct (generate_run s b w3) as (Hg & _ & _ & _).
  destruct (generate_response_with_xai s b w3) as [r w4]. simpl in Hg.
  subst r. rewrite Hh3, Hi. simpl.
  by destruct (analysis_of (http_replies w)).
Qed.

(** ** Questions and answers *)

Section Answers.
Context {L : Library}.

Lemma ask_yn_loop_accepts (prompt : string) (junk : list string) :
  ∀ (lines : list string) (w : World) (a : string) (rest : list string),
    lines = stdin w → stdin w = junk ++ a :: rest →
    Forall refused junk → ¬ refused a →
    let run := ask_yn_loop prompt lines w in
    run.1 = Ret (Py.lower a) ∧
    stdin run.2 = rest ∧
    trace run.2 = trace w ++ reprompts prompt junk ++ [EInput prompt (Some a)] ∧
    http_replies run.2 = http_replies w ∧
    smtp_replies run.2 = smtp_replies w.
Proof.
  induction junk as [|line junk IH]; intros lines w a rest Hl Hs Hj Ha.
  - simpl in Hs. rewrite Hs in Hl. subst lines. cbn [ask_yn_loop].
    unfold input. run_M. rewrite Hs. simpl.
    rewrite bool_decide_eq_true_2; [done|].
    unfold refused in Ha. by destruct (decide (Py.lower a ∈ ["y"; "n"])).
  - simpl in Hs. rewrite Hs in Hl. subst lines. cbn [ask_yn_loop].
    unfold input, print. run_M. rewrite Hs. simpl.
    apply Forall_cons in Hj as [Hline Hj].
    rewrite bool_decide_eq_false_2 by exact Hline. simpl.
    match goal with
    | |- context [ask_yn_loop prompt _ ?w1] =>
      destruct (IH (junk ++ a :: rest) w1 a rest eq_refl eq_refl Hj Ha)
        as (Hr & Hst & Ht & Hh & Hm)
    end.
    simpl in *. rewrite Hr, Hst, Ht, Hh, Hm.
    repeat split; try done. by rewrite <-!app_assoc.
Qed.

Lemma ask_yn_loop_runs_out (prompt : string) (lines : list string) :
  ∀ w : World,
    lines = stdin w → Forall refused lines →
    let run := ask_yn_loop prompt lines w in
    run.1 = Raise (Exn "EOFError" "EOF when reading a line") ∧
    stdin run.2 = [] ∧
    trace run.2 = trace w ++ reprompts prompt lines ++ [EInput prompt None].
Proof.
  induction lines as [|line lines IH]; intros w Hl Hj.
  - cbn [ask_yn_loop]. unfold input. run_M. by rewrite <-Hl.
  - cbn [ask_yn_loop]. unfold input, print. run_M. rewrite <-Hl. simpl.
    apply Forall_cons in Hj as [Hline Hj].
    rewrite bool_decide_eq_false_2 by exact Hline. simpl.
    match goal with
    | |- context [ask_yn_loop prompt _ ?w1] =>
      destruct (IH w1 eq_refl Hj) as (Hr & Hst & Ht)
    end.
    simpl in *. rewrite Hr, Hst, Ht.
    repeat split; try done. by rewrite <-!app_assoc.
Qed.

Lemma send_email_run (to subject body : string) (w : World) :
  let run := send_email to subject body w in
  run.1 = Ret tt ∧
  trace run.2 =
    trace w ++ [ESmtpSend to ("Re: " +:+ subject) body
                          (delivered (smtp_replies w));
                EPrint (delivery_report to (smtp_replies w))] ∧
  smtp_replies run.2 = tail (smtp_replies w) ∧
  same_but_smtp w run.2.
Proof.
  unfold send_email, smtp_deliver, same_but_smtp. run_M.
  destruct (smtp_replies w) as [|[[]|e] rest] eqn:Hr; simpl;
    rewrite ?Hr, <-?app_assoc; done.
Qed.
End Answers.

(** X10: a yes/no question of the review loop skips every line that is
    neither yes nor no, printing its notice once for each, and returns the
    first line that is one, in lower case, so that Y and N are taken too;
    it reads no line beyond that one. *)
Theorem ask_yn_accepts (prompt : string) (w : World)
        (junk : list string) (a : string) (rest : list string) :
  stdin w = junk ++ a :: rest →
  Forall refused junk → ¬ refused a →
  let run := ask_yn prompt w in
  run.1 = Ret (Py.lower a) ∧
  stdin run.2 = rest ∧
  trace run.2 = trace w ++ reprompts prompt junk ++ [EInput prompt (Some a)].
Proof.
  intros Hs Hj Ha.
  destruct (ask_yn_loop_accepts prompt junk (stdin w) w a rest eq_refl
              Hs Hj Ha) as (Hr & Hst & Ht & _).
  by repeat split.
Qed.

(** X11: when no line of the keyboard input is yes or no, the question
    refuses each line in turn and then leaves by [EOFError]. *)
Theorem ask_yn_runs_out (prompt : string) (w : World) :
  Forall refused (stdin w) →
  let run := ask_yn prompt w in
  run.1 = Raise (Exn "EOFError" "EOF when reading a line") ∧
  stdin run.2 = [] ∧
  trace run.2 = trace w ++ reprompts prompt (stdin w) ++ [EInput prompt None].
Proof.
  intros Hj. by apply (ask_yn_loop_runs_out prompt (stdin w) w eq_refl Hj).
Qed.

(** X12: [send_email] never raises. It makes one delivery attempt, of the
    body as given under the subject prefixed with Re:, uses up one reply of
    the mail server, and prints one line: that the response was sent when
    the delivery succeeded, the cause when it failed. *)
Theorem send_email_effects (to subject body : string)
        (w : World) :
  let run := send_email to subject body w in
  run.1 = Ret tt ∧
  trace run.2 =
    trace w ++ [ESmtpSend to ("Re: " +:+ subject) body
                          (delivered (smtp_replies w));
                EPrint (delivery_report to (smtp_replies w))] ∧
  smtp_replies run.2 = tail (smtp_replies w) ∧
  same_but_smtp w run.2.
Proof. apply send_email_run. Qed.

(** ** One pass of the review loop *)

Lemma question_event_quiet (e : event) :
  question_event e →
  (∀ i t, e ≠ EShowTicket i t) ∧ (∀ id, e ≠ EImapStore id) ∧
  (∀ a b c d, e ≠ ESmtpSend a b c d).
Proof.
  intros [[[[a ->]|[l ->]]|[a ->]]|[[a ->]|[l ->]]]; by repeat split.
Qed.

Lemma shown_tickets_app (l1 l2 : list event) :
  shown_tickets (l1 ++ l2) = shown_tickets l1 ++ shown_tickets l2.
Proof.
  induction l1 as [|e l1 IH]; [done|]. destruct e; simpl; by rewrite ?IH.
Qed.

Lemma shown_tickets_none (evs : list event) :
  Forall (λ e, ∀ i t, e ≠ EShowTicket i t) evs → shown_tickets evs = [].
Proof.
  induction 1 as [|e evs He _ IH]; [done|].
  destruct e; simpl; try done. by destruct (He i t).
Qed.

Section PassFacts.
Context {L : Library}.

Lemma edit_stage_keeps (t t' : ticket) (w : World) :
  (edit_stage t w).1 = Ret t' → same_but_response t t'.
Proof.
  unfold edit_stage, same_but_response. unfold mbind, M_mbind, M_bind.
  destruct (ask_yn edit_prompt w) as [[a| |] w1]; simpl; try done.
  destruct (decide (a = "y")).
  - unfold input. destruct (stdin w1) as [|r rest]; simpl; [done|].
    intros E. inversion E. by exists r.
  - intros E. inversion E. exists (response t'). by destruct t'.
Qed.

Lemma send_stage_shape (t : ticket) (w : World) :
  ∃ questions,
    Forall (prompt_event send_prompt) questions ∧
    (trace (send_stage t w).2 = trace w ++ questions ∨
     ∃ d line,
       trace (send_stage t w).2 =
         trace w ++ questions ++
         [ESmtpSend (recipient t) ("Re: " +:+ subject t) (response t) d;
          EPrint line; EImapStore (email_id t)]).
Proof.
  unfold send_stage. unfold mbind, M_mbind, M_bind.
  destruct (ask_yn_spec send_prompt w) as (e1 & T1 & F1 & _).
  exists e1. split; [done|].
  destruct (ask_yn send_prompt w) as [[a| |] w1]; simpl in *;
    [|by left..].
  destruct (decide (a = "y")); [|by left]. right.
  fold (recipient t).
  destruct (send_email_run (recipient t) (subject t) (response t) w1)
    as (Hr & Ht & _).
  destruct (send_email (recipient t) (subject t) (response t) w1)
    as [[[]| |] w2]; simpl in *; try discriminate Hr.
  unfold imap_store. run_M. eexists _, _.
  destruct (imap_store_reply w2 (email_id t)); simpl;
    rewrite Ht, T1, <-!app_assoc; done.
Qed.

(** The events of one pass: the ticket, then questions only, then nothing
    or one delivery attempt, its report and the mark, in this order. *)
Lemma review_ticket_shape (i : nat) (t : ticket) (w : World) :
  ∃ questions sent,
    trace (review_ticket i t w).2
      = trace w ++ EShowTicket i t :: questions ++ sent ∧
    Forall question_event questions ∧
    (sent = [] ∨
     ∃ body d line,
       sent = [ESmtpSend (recipient t) ("Re: " +:+ subject t) body d;
               EPrint line; EImapStore (email_id t)] ∧
       (∀ text, EInput text_prompt (Some text) ∈ questions → body = text) ∧
       ((∀ text, EInput text_prompt (Some text) ∉ questions) →
        body = response t)) ∧
    (∀ t', (review_ticket i t w).1 = Ret t' → same_but_response t t').
Proof.
  destruct prompts_distinct as (_ & _ & Hts).
  unfold review_ticket, emit. unfold mbind, M_mbind, M_bind. simpl.
  set (w0 := log_event (EShowTicket i t) w).
  destruct (edit_stage_spec t w0) as (e1 & T1 & F1 & R1).
  pose proof (λ t', edit_stage_keeps t t' w0) as Hkeep.
  assert (F1' : Forall question_event e1).
  { eapply Forall_impl; [exact F1|]. intros e He. by left. }
  destruct (edit_stage t w0) as [[t'| |] w1]; simpl in *; [| |done].
  - destruct R1 as (Rtext & Rnone & _).
    destruct (Hkeep t' eq_refl) as [r ->].
    destruct (send_stage_shape (set_response t r) w1)
      as (q & Fq & Hshape).
    assert (Hq : ∀ text, EInput text_prompt (Some text) ∈ e1 ++ q
                         ↔ EInput text_prompt (Some text) ∈ e1).
    { intros text. rewrite elem_of_app. split; [|by left].
      intros [Hin|Hin]; [done|].
      destruct (proj1 (Forall_forall _ _) Fq _ Hin) as [[a E]|[l E]];
        inversion E; by subst. }
    assert (HF : Forall question_event (e1 ++ q)).
    { apply Forall_app. split; [done|].
      eapply Forall_impl; [exact Fq|]. intros e He. by right. }
    assert (Htr : ∀ evs,
              trace (send_stage (set_response t r) w1).2 = trace w1 ++ evs →
              trace (let (o, w') := send_stage (set_response t r) w1 in
                     match o with
                     | Ret _ => (Ret (set_response t r), w')
                     | Raise e => (Raise e, w')
                     | SysExit c => (SysExit c, w')
                     end).2
              = trace w ++ EShowTicket i t :: e1 ++ evs).
    { intros evs E.
      destruct (send_stage (set_response t r) w1) as [[[]| |] w2];
        simpl in *; rewrite E, T1; subst w0; simpl;
        by rewrite <-!app_assoc. }
    destruct Hshape as [E|(d & line & E)].
    + exists (e1 ++ q), []. rewrite app_nil_r.
      split; [by apply Htr|]. split; [done|]. split; [by left|].
      intros t'. destruct (send_stage (set_response t r) w1) as [[[]| |] w2];
        simpl; intros E'; inversion E'. by exists r.
    + exists (e1 ++ q), [ESmtpSend (recipient t) ("Re: " +:+ subject t)
                                    (response (set_response t r)) d;
                          EPrint line; EImapStore (email_id t)].
      split; [rewrite <-app_assoc; by apply Htr|]. split; [done|]. split.
      * right. eexists _, _, _. split; [done|]. split.
        -- intros text Hin. apply Hq in Hin.
           by rewrite (Rtext text Hin).
        -- intros Hnone. rewrite Rnone; [done|].
           intros text Hin. apply (Hnone text). by apply Hq.
      * intros t'.
        destruct (send_stage (set_response t r) w1) as [[[]| |] w2];
          simpl; intros E'; inversion E'. by exists r.
  - exists e1, []. rewrite app_nil_r. split.
    { rewrite T1. subst w0. simpl. by rewrite <-app_assoc. }
    split; [done|]. split; [by left|done].
Qed.
End PassFacts.

(** X13: one pass of the review loop shows the ticket, then asks its
    questions, and ends with nothing more or with one delivery attempt, the
    line reporting it and the mark as read, in this order. The delivery
    goes to the address part of the sender, or to the sender as it stands
    when it has none, under the subject prefixed with Re:, and its body is
    the text the operator typed, or the draft when no text was typed. *)
Theorem review_pass_delivery {L : Library} (i : nat) (t : ticket)
        (w : World) :
  ∃ questions sent,
    trace (review_ticket i t w).2
      = trace w ++ EShowTicket i t :: questions ++ sent ∧
    Forall question_event questions ∧
    (sent = [] ∨
     ∃ body d line,
       sent = [ESmtpSend (recipient t) ("Re: " +:+ subject t) body d;
               EPrint line; EImapStore (email_id t)] ∧
       (∀ text, EInput text_prompt (Some text) ∈ questions → body = text) ∧
       ((∀ text, EInput text_prompt (Some text) ∉ questions) →
        body = response t)).
Proof.
  destruct (review_ticket_shape i t w) as (q & sent & Ht & Fq & Hs & _).
  by exists q, sent.
Qed.

(** ** The whole review loop *)

Section LoopFacts.
Context {L : Library}.

Lemma review_tickets_run (ts : list ticket) :
  ∀ (i : nat) (w : World),
    ∃ evs, trace (review_tickets i ts w).2 = trace w ++ evs ∧
      (∀ id, EImapStore id ∈ evs → id ∈ email_id <$> ts) ∧
      (∀ ts', (review_tickets i ts w).1 = Ret ts' →
              Forall2 same_but_response ts ts' ∧ shown_tickets evs = ts).
Proof.
  induction ts as [|t ts IH]; intros i w.
  { exists []. simpl. rewrite app_nil_r. split; [done|]. split.
    - intros id Hin. by apply elem_of_nil in Hin.
    - intros ts' E. inversion E. split; [constructor|done]. }
  cbn [review_tickets]. unfold mbind, M_mbind, M_bind.
  destruct (review_ticket_shape i t w) as (q & sent & Ht & Fq & Hs & Hk).
  assert (Hstore : ∀ id, EImapStore id ∈ EShowTicket i t :: q ++ sent →
                         id = email_id t).
  { intros id Hin. apply elem_of_cons in Hin as [E|Hin]; [discriminate E|].
    apply elem_of_app in Hin as [Hin|Hin].
    - destruct (question_event_quiet _ (proj1 (Forall_forall _ _) Fq _ Hin))
        as (_ & Hno & _). by destruct (Hno id).
    - destruct Hs as [->|(body & d & line & -> & _)].
      + by apply elem_of_nil in Hin.
      + repeat (apply elem_of_cons in Hin as [E|Hin];
                [by inversion E|]).
        by apply elem_of_nil in Hin. }
  assert (Hshown : shown_tickets (EShowTicket i t :: q ++ sent) = [t]).
  { simpl. rewrite shown_tickets_app, shown_tickets_none.
    - by destruct Hs as [->|(body & d & line & -> & _)].
    - eapply Forall_impl; [exact Fq|]. intros e He.
      by destruct (question_event_quiet e He). }
  destruct (review_ticket i t w) as [[t'| |] w1]; simpl in *.
  - destruct (IH (S i) w1) as (evs2 & T2 & S2 & R2).
    exists ((EShowTicket i t :: q ++ sent) ++ evs2).
    assert (Htr : trace w1 ++ evs2
                  = trace w ++ (EShowTicket i t :: q ++ sent) ++ evs2).
    { rewrite Ht. by rewrite <-!app_assoc. }
    split; [|split].
    + rewrite <-Htr, <-T2.
      by destruct (review_tickets (S i) ts w1) as [[rest'| |] w2].
    + intros id Hin. apply elem_of_app in Hin as [Hin|Hin].
      * rewrite (Hstore id Hin). apply list_elem_of_here.
      * apply list_elem_of_further. by apply S2.
    + intros ts'.
      destruct (review_tickets (S i) ts w1) as [[rest'| |] w2];
        simpl in *; intros E; inversion E; subst ts'.
      destruct (R2 rest' eq_refl) as [HF Hsh]. split.
      * constructor; [by apply Hk|done].
      * rewrite shown_tickets_app, Hsh. injection Hshown as HX.
        simpl. by rewrite HX.
  - exists (EShowTicket i t :: q ++ sent). split; [done|]. split; [|done].
    intros id Hin. rewrite (Hstore id Hin). apply list_elem_of_here.
  - exists (EShowTicket i t :: q ++ sent). split; [done|]. split; [|done].
    intros id Hin. rewrite (Hstore id Hin). apply list_elem_of_here.
Qed.
End LoopFacts.

(** X14: when the review loop runs to its end it has shown the tickets
    one by one in the order given, and the tickets it leaves differ from
    those at most in their responses; whether it runs to its end or not, it
    marks as read no message but those of its tickets. *)
Theorem review_keeps_tickets {L : Library} (i : nat) (ts : list ticket)
        (w : World) :
  ∃ evs, trace (review_tickets i ts w).2 = trace w ++ evs ∧
    (∀ id, EImapStore id ∈ evs → id ∈ email_id <$> ts) ∧
    (∀ ts', (review_tickets i ts w).1 = Ret ts' →
            Forall2 same_but_response ts ts' ∧ shown_tickets evs = ts).
Proof. apply review_tickets_run. Qed.

(** ** The two phases of a run *)

Lemma phased_bind (P Q : event → Prop) {A B} (m : M A) (f : A → M B) :
  silent P m → (∀ a, phased P Q (f a)) → phased P Q (M_bind m f).
Proof.
  intros Hm Hf w. unfold M_bind.
  destruct (Hm w) as (evs & E & F).
  destruct (m w) as [[a|e|c] w1]; simpl in *.
  - destruct (Hf a w1) as (evs1 & evs2 & E2 & F1 & F2).
    exists (evs ++ evs1), evs2. rewrite E2, E, <-!app_assoc.
    split; [done|]. split; [by apply Forall_app|done].
  - exists evs, []. rewrite app_nil_r. by repeat split.
  - exists evs, []. rewrite app_nil_r. by repeat split.
Qed.

Lemma phased_second (P Q : event → Prop) {A} (m : M A) :
  silent Q m → phased P Q m.
Proof.
  intros Hm w. destruct (Hm w) as (evs & E & F). by exists [], evs.
Qed.

(** X15: a run of [main] has two phases. Every mailbox connection, search
    and fetch and every call of the service comes before the first ticket
    is shown; from then on come only tickets, questions, printed lines,
    deliveries, marks as read and the logout. *)
Theorem main_two_phases {L : Library} (folder : string) (w : World) :
  ∃ evs1 evs2,
    trace (main folder w).2 = trace w ++ evs1 ++ evs2 ∧
    Forall building_event evs1 ∧ Forall reviewing_event evs2.
Proof.
  revert w. change (phased building_event reviewing_event (main folder)).
  unfold main.
  apply phased_bind; [by apply connect_to_email_silent|]. intros _.
  apply (phased_bind _ _ imap_search); [by apply imap_search_silent|].
  intros [status messages0].
  destruct (negb _ || _).
  - apply phased_second. apply silent_bind; [by apply silent_emit|].
    intros _. by apply silent_emit.
  - apply (phased_bind _ _ (build_tickets _ _)).
    { by apply build_tickets_silent. }
    intros tickets.
    apply (phased_bind _ _ (lift _)); [apply silent_lift|]. intros sorted.
    apply phased_second. apply silent_bind.
    + by apply review_tickets_silent.
    + intros _. by apply silent_emit.
Qed.

(** ** When the sort raises *)

Lemma decorate_err {A} (key : A → result Z) (l : list A) (e : exn) :
  decorate key l = Err e → ∃ a e', a ∈ l ∧ key a = Err e'.
Proof.
  induction l as [|a l IH]; simpl; [done|].
  unfold mbind, result_mbind. destruct (key a) as [k|e'] eqn:Hk; simpl.
  - destruct (decorate key l) as [d|e'']; simpl; [done|]. intros E.
    destruct (IH E) as (b & e' & Hin & Hb).
    exists b, e'. split; [by apply list_elem_of_further|done].
  - intros _. exists a, e'. split; [apply list_elem_of_here|done].
Qed.

(** X16: the sort of line 264 raises exactly when the urgency of some
    ticket is a JSON array or object, which cannot be looked up in the rank
    dictionary; an urgency that is a text, a number, a truth value or null
    never makes it raise. *)
Theorem sort_raises_iff_unhashable (tickets : list ticket) :
  (∃ e, list_sort rank tickets = Err e) ↔
  ∃ t, t ∈ tickets ∧ unhashable (urgency t).
Proof.
  split.
  - intros [e He]. unfold list_sort, mbind, result_mbind in He.
    destruct (decorate rank tickets) as [d|e'] eqn:Hd; [done|].
    destruct (decorate_err rank tickets e' Hd) as (t & e'' & Hin & Ht).
    exists t. split; [done|]. unfold rank, urgency_order_get in Ht.
    by destruct (urgency t).
  - intros (t & Hin & Hu).
    assert (∃ e, rank t = Err e) as [e He].
    { unfold rank, urgency_order_get. destruct (urgency t); try done;
        by eexists. }
    by apply (list_sort_raises rank tickets t e).
Qed.

(** ** A run while the service is down *)

Lemma mail_events_app (l1 l2 : list event) :
  mail_events (l1 ++ l2) = mail_events l1 ++ mail_events l2.
Proof.
  induction l1 as [|e l1 IH]; [done|]. destruct e; simpl; by rewrite ?IH.
Qed.

Lemma mail_events_error_line (prefix : string) (failure : option exn) :
  mail_events (error_line prefix failure) = [] ∧
  shown_tickets (error_line prefix failure) = [].
Proof. by destruct failure. Qed.

Lemma filter_all {A} (P : A → Prop) `{∀ a, Decision (P a)} (l : list A) :
  Forall P l → filter P l = l.
Proof.
  induction 1 as [|a l Ha _ IH]; [done|].
  by rewrite filter_cons_True, IH.
Qed.

Section OutageFacts.
Context {L : Library}.

Lemma build_tickets_events (ids : list string) :
  ∀ (acc tickets : list ticket) (w w' : World),
    build_tickets ids acc w = (Ret tickets, w') →
    ∃ evs, trace w' = trace w ++ evs ∧
           mail_events evs = EImapFetch <$> ids ∧ shown_tickets evs = [].
Proof.
  induction ids as [|id ids IH]; intros acc tickets w w' Hrun.
  { inversion Hrun; subst. exists []. by rewrite app_nil_r. }
  cbn [build_tickets] in Hrun. unfold mbind, M_mbind, M_bind in Hrun.
  destruct (imap_fetch id w) as [[msg| |] w1] eqn:E1; try discriminate Hrun.
  apply imap_fetch_ret in E1 as [Hf ->].
  destruct (lift (parse_email_content msg) _) as [[[[s sd] b]| |] w2] eqn:E2;
    try discriminate Hrun.
  apply lift_ret in E2 as [Hp ->].
  set (w1 := log_event (EImapFetch id) w) in *.
  destruct (analyze_run s b w1) as (_ & Ht3 & _).
  destruct (analyze_email_with_xai s b w1) as [[a| |] w3];
    try discriminate Hrun. simpl in Ht3.
  destruct (generate_run s b w3) as (_ & Ht4 & _).
  destruct (generate_response_with_xai s b w3) as [[r| |] w4];
    try discriminate Hrun. simpl in Ht4.
  destruct (lift (bytes_decode id) w4) as [[i| |] w5] eqn:E5;
    try discriminate Hrun.
  apply lift_ret in E5 as [Hi ->].
  destruct (lift (dict_get a "urgency" _) w4) as [[u| |] w6] eqn:E6;
    try discriminate Hrun.
  apply lift_ret in E6 as [_ ->].
  destruct (lift (dict_get a "reasoning" _) w4) as [[re| |] w7] eqn:E7;
    try discriminate Hrun.
  apply lift_ret in E7 as [_ ->].
  destruct (lift (dict_get a "summary" _) w4) as [[su| |] w8] eqn:E8;
    try discriminate Hrun.
  apply lift_ret in E8 as [_ ->].
  apply IH in Hrun as (evs & Ht & Hm & Hsh).
  eexists ([EImapFetch id] ++ (_ :: error_line _ _) ++ (_ :: error_line _ _)
           ++ evs).
  split.
  { rewrite Ht, Ht4, Ht3. subst w1. simpl. by rewrite <-!app_assoc. }
  rewrite !mail_events_app, !shown_tickets_app. simpl.
  rewrite !(proj1 (mail_events_error_line _ _)).
  rewrite !(proj2 (mail_events_error_line _ _)).
  simpl. by rewrite Hm, Hsh.
Qed.

Lemma sort_of_unknown (tickets : list ticket) :
  Forall (λ t, urgency t = JStr "Unknown") tickets →
  list_sort rank tickets = Ok tickets.
Proof.
  intros Hall.
  set (last_rank := λ t, match rank t with
                         | Ok k => bool_decide (k = 4%Z)
                         | Err _ => false
                         end).
  assert (Hr : Forall (λ t, Is_true (last_rank t)) tickets).
  { eapply Forall_impl; [exact Hall|]. intros t Hu. unfold last_rank, rank.
    by rewrite Hu. }
  assert (Hk : ∀ t, Is_true (last_rank t) → rank t = Ok 4%Z).
  { intros t. unfold last_rank. destruct (rank t) as [k|]; [|done].
    intros Hb. apply bool_decide_unpack in Hb. by subst. }
  destruct (list_sort_spec rank tickets) as (out & Hs & Hp & _ & Hst).
  { eapply Forall_impl; [exact Hr|]. intros t Ht. exists 4%Z. by apply Hk. }
  rewrite Hs. f_equal.
  specialize (Hst (λ t, Is_true (last_rank t)) _).
  rewrite <-(filter_all _ tickets Hr).
  rewrite <-Hst by (intros a b Ha Hb; by rewrite !Hk).
  symmetry. apply filter_all. by rewrite Hp.
Qed.

Lemma review_ticket_declined (i : nat) (t : ticket) (w : World)
      (rest : list string) :
  stdin w = "n" :: "n" :: rest →
  let run := review_ticket i t w in
  run.1 = Ret t ∧ stdin run.2 = rest ∧
  trace run.2 = trace w ++ [EShowTicket i t; EInput edit_prompt (Some "n");
                            EInput send_prompt (Some "n")].
Proof.
  intros Hs. unfold review_ticket, edit_stage, send_stage, emit.
  unfold mbind, M_mbind, M_bind. simpl.
  set (w0 := log_event (EShowTicket i t) w).
  assert (Hn : ¬ refused "n").
  { unfold refused. intros Hn. apply Hn. by vm_compute; right; left. }
  destruct (ask_yn_loop_accepts edit_prompt [] (stdin w0) w0 "n"
              ("n" :: rest) eq_refl Hs (Forall_nil_2 _) Hn)
    as (Hr1 & Hs1 & Ht1 & _).
  fold (ask_yn edit_prompt w0) in Hr1, Hs1, Ht1.
  destruct (ask_yn edit_prompt w0) as [o1 w1]. simpl in Hr1, Hs1, Ht1.
  subst o1. change (Py.lower "n") with "n".
  rewrite decide_False by done. run_M.
  destruct (ask_yn_loop_accepts send_prompt [] (stdin w1) w1 "n" rest
              eq_refl Hs1 (Forall_nil_2 _) Hn)
    as (Hr2 & Hs2 & Ht2 & _).
  fold (ask_yn send_prompt w1) in Hr2, Hs2, Ht2.
  destruct (ask_yn send_prompt w1) as [o2 w2]. simpl in Hr2, Hs2, Ht2.
  subst o2. change (Py.lower "n") with "n".
  rewrite decide_False by done. run_M.
  split; [done|]. split; [done|].
  rewrite Ht2, Ht1. subst w0. simpl. by rewrite <-!app_assoc.
Qed.

Lemma review_tickets_declined (ts : list ticket) :
  ∀ (i : nat) (w : World) (rest : list string),
    stdin w = decline_all (length ts) ++ rest →
    ∃ evs,
      (review_tickets i ts w).1 = Ret ts ∧
      stdin (review_tickets i ts w).2 = rest ∧
      trace (review_tickets i ts w).2 = trace w ++ evs ∧
      mail_events evs = [] ∧ shown_tickets evs = ts.
Proof.
  induction ts as [|t ts IH]; intros i w rest Hs.
  { exists []. simpl in *. by rewrite app_nil_r. }
  cbn [review_tickets]. unfold mbind, M_mbind, M_bind.
  destruct (review_ticket_declined i t w _ Hs) as (Hr & Hst & Ht).
  destruct (review_ticket i t w) as [o w1]. simpl in Hr, Hst, Ht. subst o.
  destruct (IH (S i) w1 rest Hst) as (evs & Hr2 & Hs2 & Ht2 & Hm & Hsh).
  destruct (review_tickets (S i) ts w1) as [o w2]. simpl in *. subst o.
  exists ([EShowTicket i t; EInput edit_prompt (Some "n");
           EInput send_prompt (Some "n")] ++ evs).
  run_M. split; [done|]. split; [done|]. split.
  { rewrite Ht2, Ht. by rewrite <-!app_assoc. }
  rewrite ?mail_events_app, ?shown_tickets_app. simpl. by rewrite Hm, Hsh.
Qed.
End OutageFacts.

(** X17: a run while the service is down. When the mailbox is reached,
    every unread message can be fetched and parsed, every call of the
    service fails and the operator declines every ticket, [main] returns:
    it fetches the messages in the order of the search, shows one ticket
    with the fallback values for each, sends and marks nothing, and logs
    out. *)
Theorem run_with_service_down {L : Library} (folder data : string)
        (w : World) (rest : list string) :
  imap_connect_reply w = Ok tt →
  imap_search_reply w = Ok ("OK", Some data) →
  data ≠ "" →
  (∀ id, id ∈ Py.split data → readable w id) →
  Forall is_err (http_replies w) →
  stdin w = decline_all (length (Py.split data)) ++ rest →
  ∃ evs,
    (main folder w).1 = Ret tt ∧
    trace (main folder w).2 = trace w ++ evs ∧
    mail_events evs =
      EImapConnect folder :: EImapSearch ::
      (EImapFetch <$> Py.split data) ++ [EImapLogout] ∧
    length (shown_tickets evs) = length (Py.split data) ∧
    Forall degraded (shown_tickets evs) ∧
    stdin (main folder w).2 = rest.
Proof.
  intros Hc Hsearch Hdata Hread Hall Hkeys.
  unfold main, connect_to_email, imap_connect, imap_search, imap_logout.
  run_M. rewrite Hc. simpl. rewrite Hsearch. simpl.
  rewrite (bool_decide_eq_false_2 (data = "")) by done. simpl.
  set (w2 := log_event EImapSearch (log_event (EImapConnect folder) w)).
  destruct (build_tickets_all_fail (Py.split data) [] w2)
    as (tickets & w3 & Hb & Hlen & Hdeg); [exact Hread|exact Hall|].
  simpl in Hb.
  destruct (build_tickets_events _ _ _ _ _ Hb) as (evs1 & Ht1 & Hm1 & Hsh1).
  destruct (build_tickets_run _ _ _ _ _ Hb) as (_ & _ & _ & _ & Hsame).
  rewrite Hb. simpl.
  rewrite sort_of_unknown by (eapply Forall_impl; [exact Hdeg|];
                              by intros t [? _]).
  simpl.
  assert (Hs3 : stdin w3 = decline_all (length tickets) ++ rest).
  { destruct Hsame as (_ & _ & _ & _ & _ & ->). by rewrite Hlen. }
  destruct (review_tickets_declined tickets 1 w3 rest Hs3)
    as (evs2 & Hr & Hst & Ht2 & Hm2 & Hsh2).
  destruct (review_tickets 1 tickets w3) as [o w4]. simpl in *. subst o.
  exists ([EImapConnect folder; EImapSearch] ++ evs1 ++ evs2
          ++ [EImapLogout]).
  split; [done|]. split.
  { simpl. rewrite Ht2, Ht1. by rewrite <-!app_assoc. }
  rewrite !mail_events_app, !shown_tickets_app, Hm1, Hm2, Hsh1, Hsh2.
  simpl. rewrite app_nil_r. by repeat split.
Qed.

(** ** The further properties at concrete inputs *)

Lemma setup_credentials_reads_missing_witness :
  let run := setup_credentials sample_credentials
                               (keyboard ["secret"; "key-1"; "n"]) in
  run.1 = Ret (Credentials (Some "me@example.org") (Some "secret")
                           (Some "key-1")) ∧
  stdin run.2 = ["n"].
Proof.
  assert (Hlen : length (missing_prompts sample_credentials)
                 ≤ length (stdin (keyboard ["secret"; "key-1"; "n"]))).
  { simpl. repeat constructor. }
  destruct (setup_credentials_reads_missing sample_credentials _ Hlen)
    as (Hr & Hs & _).
  split; [by rewrite Hr|by rewrite Hs].
Defined.

Lemma setup_credentials_eof_witness :
  (setup_credentials (Credentials None None None) (keyboard ["me"])).1
  = Raise (Exn "EOFError" "EOF when reading a line").
Proof.
  apply (setup_credentials_eof (Credentials None None None)
                               (keyboard ["me"])).
  simpl. repeat constructor.
Defined.

Lemma extract_body_without_text_witness :
  extract_body (L := example_library) attachments_only = Ok "".
Proof.
  apply extract_body_without_text. unfold attachments_only. simpl.
  repeat (apply Forall_cons; split; [split; by vm_compute|]).
  by apply Forall_nil.
Defined.

Lemma parse_email_content_first_chunk_witness :
  parse_email_content (L := example_library) sample_message
  = Ok ("Server down", "Ann <ann@example.org>", "The server is down").
Proof.
  assert (Hwf : well_formed (msg_root sample_message)).
  { apply Forall_singleton. intros Hm. discriminate Hm. }
  rewrite (parse_email_content_first_chunk (L := example_library)
             sample_message "Server down" (ChunkStr "Server down") None []
             eq_refl eq_refl Hwf).
  by vm_compute.
Defined.

Lemma build_tickets_in_fetch_order_witness :
  let w := sample_world "1 2" (λ _, Ok sample_message) [] [] [] in
  ∃ tickets,
    (build_tickets (L := example_library) ["1"; "2"] [] w).1 = Ret tickets ∧
    Forall2 (built_for (L := example_library) (imap_fetch_reply w))
            ["1"; "2"] tickets.
Proof.
  cbv zeta.
  set (w := sample_world "1 2" (λ _, Ok sample_message) [] [] []).
  assert (Hrun : ∃ tickets,
            build_tickets (L := example_library) ["1"; "2"] [] w
            = (Ret tickets,
               (build_tickets (L := example_library) ["1"; "2"] [] w).2)).
  { eexists. by vm_compute. }
  destruct Hrun as [tickets Hrun]. exists tickets.
  split; [by rewrite Hrun|].
  by destruct (build_tickets_in_fetch_order (L := example_library) _ _ _ _
                 Hrun).
Defined.

Lemma ticket_fields_from_analysis_witness :
  let w := sample_world "1" (λ _, Ok sample_message)
                        [Ok (reply_with (JStr "{}"))] [] [] in
  (build_tickets (L := example_library) ["1"] [] w).1
  = Ret [Ticket "1" "Server down" "Ann <ann@example.org>" (JStr "Unknown")
                (JStr "No reasoning provided") (JStr "No summary available")
                generic_acknowledgment].
Proof.
  cbv zeta.
  rewrite (ticket_fields_from_analysis (L := example_library) "1" "1"
             "Server down" "Ann <ann@example.org>" "The server is down"
             sample_message); by vm_compute.
Defined.

Lemma refused_maybe : refused "maybe".
Proof.
  unfold refused. intros Hin. apply yn_elem in Hin.
  destruct Hin as [E|E]; vm_compute in E; discriminate E.
Defined.

Lemma ask_yn_accepts_witness :
  let run := ask_yn edit_prompt (keyboard ["maybe"; "Y"; "later"]) in
  run.1 = Ret "y" ∧ stdin run.2 = ["later"].
Proof.
  assert (Ha : ¬ refused "Y").
  { intros Hr. apply Hr, yn_elem. by left. }
  destruct (ask_yn_accepts edit_prompt (keyboard ["maybe"; "Y"; "later"])
              ["maybe"] "Y" ["later"] eq_refl
              (Forall_cons_2 _ _ _ refused_maybe (Forall_nil_2 _)) Ha)
    as (Hr & Hs & _).
  by split.
Defined.

Lemma ask_yn_runs_out_witness :
  (ask_yn send_prompt (keyboard ["maybe"])).1
  = Raise (Exn "EOFError" "EOF when reading a line").
Proof.
  by destruct (ask_yn_runs_out send_prompt (keyboard ["maybe"])
                 (Forall_cons_2 _ _ _ refused_maybe (Forall_nil_2 _))).
Defined.

Lemma run_with_service_down_witness :
  let w := sample_world "1 2" (λ _, Ok sample_message) [] []
                        ["n"; "n"; "n"; "n"; "y"] in
  (main (L := example_library) "inbox" w).1 = Ret tt ∧
  stdin (main (L := example_library) "inbox" w).2 = ["y"].
Proof.
  cbv zeta.
  set (w := sample_world "1 2" (λ _, Ok sample_message) [] []
                         ["n"; "n"; "n"; "n"; "y"]).
  assert (Hread : ∀ id, id ∈ Py.split "1 2" →
                        readable (L := example_library) w id).
  { intros id Hin. change (Py.split "1 2") with ["1"; "2"] in Hin.
    apply elem_of_cons in Hin as [->|Hin];
      [|apply list_elem_of_singleton in Hin as ->];
      eexists _, _, _; by vm_compute. }
  destruct (run_with_service_down (L := example_library) "inbox" "1 2" w
              ["y"] eq_refl eq_refl ltac:(done) Hread (Forall_nil_2 _)
              eq_refl) as (evs & Hr & _ & _ & _ & _ & Hs).
  by split.
Defined.
